(** * github_exporter: the repository, issue and pull request collectors

    A shallow embedding of [pkg/exporter]: the three Prometheus collectors
    ([RepoCollector], [IssueCollector], [PullRequestCollector]), the name
    resolver [reposByOwnerAndName] they carry, and the helpers that flatten
    nil-able fields into label values.

    Go values are modelled as follows.
    - a nil-able pointer [*T] is [option T]; dereferencing [None] panics;
    - a slice is a [list]; a slice of pointers is a [list (option T)];
    - [string] is [string], [int]/[int64] are [Z];
    - a [(value, error)] pair is [goresult];
    - a computation that may panic is an [outcome]; the collectors thread a
      [State] (failure counters, emitted samples, log lines, API calls)
      through the monad [M];
    - the unbounded [for] loop of the paginated search takes fuel, and
      running out of fuel is the outcome [Diverge]. *)

From Stdlib Require Import ZArith Lia Ascii String DecimalString DecimalPos
  DecimalZ.
From stdpp Require Import base option list gmap strings.

Local Open Scope string_scope.
Local Open Scope Z_scope.
Local Open Scope list_scope.

(** ** Panics and divergence *)

Inductive outcome (A : Type) : Type :=
| Ret (a : A)
| Panic (msg : string)
| Diverge.
Arguments Ret {A} a.
Arguments Panic {A} msg.
Arguments Diverge {A}.

Definition obind {A B} (o : outcome A) (k : A -> outcome B) : outcome B :=
  match o with
  | Ret a => k a
  | Panic msg => Panic msg
  | Diverge => Diverge
  end.

Declare Scope outcome_scope.
Delimit Scope outcome_scope with outcome.
Notation "x <~ c ;; k" := (obind c (fun x => k))
  (at level 100, c at next level, right associativity) : outcome_scope.

(** The runtime error of dereferencing a nil pointer. *)
Definition nil_deref : string :=
  "invalid memory address or nil pointer dereference".

(** [*p] for a nil-able pointer. *)
Definition deref {A} (p : option A) : outcome A :=
  match p with
  | Some a => Ret a
  | None => Panic nil_deref
  end.

(** A Go [(value, error)] result; the error carries its message. *)
Inductive goresult (A : Type) : Type :=
| GoOk (a : A)
| GoErr (err : string).
Arguments GoOk {A} a.
Arguments GoErr {A} err.

(** ** The [strings] package, as far as the exporter and go-glob use it *)

Module strings.

(** [len(s)] *)
Definition len (s : string) : Z := Z.of_nat (String.length s).

(** [strings.HasPrefix(s, prefix)] *)
Fixpoint HasPrefix (s prefix : string) {struct prefix} : bool :=
  match prefix with
  | EmptyString => true
  | String c prefix' =>
      match s with
      | EmptyString => false
      | String d s' => Ascii.eqb d c && HasPrefix s' prefix'
      end
  end.

(** [strings.Index(s, substr)]: the first index at which [substr] occurs
    in [s], or [-1]. *)
Fixpoint Index (s substr : string) : Z :=
  if HasPrefix s substr then 0
  else match s with
       | EmptyString => -1
       | String _ s' =>
           let i := Index s' substr in
           if i <? 0 then -1 else i + 1
       end.

(** [strings.Contains(s, substr)] *)
Definition Contains (s substr : string) : bool := 0 <=? Index s substr.

(** The characters of [s] from position [n] on. *)
Fixpoint drop (n : nat) (s : string) : string :=
  match n, s with
  | O, _ => s
  | S n', String _ s' => drop n' s'
  | S _, EmptyString => EmptyString
  end.

(** The slice expression [s[k:]], which panics unless [0 <= k <= len(s)]. *)
Definition slice_from (s : string) (k : Z) : outcome string :=
  if (0 <=? k) && (k <=? len s) then Ret (drop (Z.to_nat k) s)
  else Panic "slice bounds out of range".

(** [strings.HasSuffix(s, suffix)]:
    [len(s) >= len(suffix) && s[len(s)-len(suffix):] == suffix] *)
Definition HasSuffix (s suffix : string) : bool :=
  (len suffix <=? len s)
  && String.eqb (drop (Z.to_nat (len s - len suffix)) s) suffix.

(** [strings.Split(s, sep)] for a one-byte separator, which is what the
    collectors (["/"]) and go-glob (["*"]) pass.  The result always has
    one more element than [s] has separators. *)
Fixpoint Split (s : string) (sep : ascii) : list string :=
  match s with
  | EmptyString => [EmptyString]
  | String c s' =>
      if Ascii.eqb c sep then EmptyString :: Split s' sep
      else match Split s' sep with
           | h :: t => String c h :: t
           | [] => [String c EmptyString]
           end
  end.

End strings.

(** ** github.com/ryanuber/go-glob

    The exporter imports this library, which is not part of its sources;
    the library's one function is embedded here after the library's source
    (v1.0.0), line by line. *)

Module glob.
Import strings.
Local Open Scope outcome_scope.

Definition GLOB : string := "*".
Definition GLOB_byte : ascii := "*"%char.

(** The loop [for i := 0; i < end; i++] over the leading parts.  It
    gives [None] where the source returns false from inside the loop and
    the trimmed subject otherwise. *)
Fixpoint leading_parts (leadingGlob : bool) (i : nat) (parts : list string)
    (subj : string) : outcome (option string) :=
  match parts with
  | [] => Ret (Some subj)
  | part :: parts' =>
      let idx := Index subj part in
      let reject :=
        match i with
        | O => negb leadingGlob && negb (idx =? 0)
        | _ => idx <? 0
        end in
      if reject then Ret None
      else
        subj' <~ slice_from subj (idx + len part) ;;
        leading_parts leadingGlob (S i) parts' subj'
  end.

Definition Glob (pattern subj : string) : outcome bool :=
  if String.eqb pattern "" then Ret (String.eqb subj pattern)
  else if String.eqb pattern GLOB then Ret true
  else
    let parts := Split pattern GLOB_byte in
    if (length parts =? 1)%nat then Ret (String.eqb subj pattern)
    else
      let leadingGlob := HasPrefix pattern GLOB in
      let trailingGlob := HasSuffix pattern GLOB in
      let end_ := (length parts - 1)%nat in
      r <~ leading_parts leadingGlob 0 (take end_ parts) subj ;;
      match r with
      | None => Ret false
      | Some subj' =>
          Ret (trailingGlob || HasSuffix subj' (nth end_ parts ""))
      end.

End glob.

(** ** The exporter package: shared state and helpers *)

(** [fmt.Sprint] of an integer: its decimal digits, with a sign when
    negative. *)
Definition Sprint (n : Z) : string := NilZero.string_of_int (Z.to_int n).

(** [strconv.FormatBool] *)
Definition FormatBool (b : bool) : string := if b then "true" else "false".

(** Gauge values are [float64] conversions of integers and of booleans;
    the integer stands for its conversion. *)
Definition float64 : Type := Z.

Module time.
(** What the collectors observe of a [time.Time]: its Unix seconds and
    its default rendering. *)
Record Time : Type := { Unix : Z; String_ : string }.
End time.

(** ** github.com/google/go-github: the records and the client *)

Module github.

Module User.
Record t : Type := { Login : option string }.
End User.

Module Label.
Record t : Type := { Name : option string }.
End Label.

Module Reactions.
Record t : Type := {
  TotalCount : option Z;
  PlusOne : option Z;
  MinusOne : option Z
}.
End Reactions.

Module Repository.
Record t : Type := {
  FullName : option string;
  Name : option string;
  Fork : option bool;
  ForksCount : option Z;
  NetworkCount : option Z;
  OpenIssuesCount : option Z;
  StargazersCount : option Z;
  SubscribersCount : option Z;
  WatchersCount : option Z;
  Size : option Z;
  AllowRebaseMerge : option bool;
  AllowSquashMerge : option bool;
  AllowMergeCommit : option bool;
  Archived : option bool;
  Private : option bool;
  HasIssues : option bool;
  HasWiki : option bool;
  HasPages : option bool;
  HasProjects : option bool;
  HasDownloads : option bool;
  PushedAt : option time.Time;
  CreatedAt : option time.Time;
  UpdatedAt : option time.Time
}.
End Repository.

Module Issue.
Record t : Type := {
  ID : option Z;
  State : option string;
  Locked : option bool;
  Title : option string;
  Body : option string;
  User : option User.t;
  AuthorAssociation : option string;
  Labels : list (option Label.t);
  Comments : option Z;
  CreatedAt : option time.Time;
  UpdatedAt : option time.Time;
  URL : option string;
  HTMLURL : option string;
  Reactions : option Reactions.t;
  Assignee : option User.t
}.
End Issue.

Module PullRequest.
Record t : Type := {
  Number : option Z;
  State : option string;
  Title : option string;
  Body : option string;
  CreatedAt : option time.Time;
  Labels : list (option Label.t);
  User : option User.t;
  Merged : option bool;
  Comments : option Z;
  Commits : option Z;
  Additions : option Z;
  Deletions : option Z;
  ChangedFiles : option Z;
  HTMLURL : option string;
  ReviewComments : option Z;
  Assignee : option User.t;
  Assignees : list (option User.t);
  AuthorAssociation : option string;
  RequestedReviewers : list (option User.t)
}.
End PullRequest.

Record ListOptions : Type := { Page : Z; PerPage : Z }.
Record SearchOptions : Type := { SearchOptions_ListOptions : ListOptions }.
Record RepositoriesSearchResult : Type :=
  { Repositories : list (option Repository.t) }.
Record Response : Type := { NextPage : Z }.

(** The four endpoints the exporter calls.  Within one poll the remote
    API is a function of the request; an error is a transport error. *)
Record Client : Type := {
  Search_Repositories :
    string -> SearchOptions -> goresult (RepositoriesSearchResult * Response);
  Repositories_Get : string -> string -> goresult Repository.t;
  Issues_ListByRepo : string -> string -> goresult (list (option Issue.t));
  PullRequests_List :
    string -> string -> goresult (list (option PullRequest.t))
}.

(** A request as it leaves the exporter. *)
Inductive Call : Type :=
| CallSearch (query : string) (opts : SearchOptions)
| CallGet (owner repo : string)
| CallIssuesList (owner repo : string)
| CallPullsList (owner repo : string).

End github.

(** ** github.com/prometheus/client_golang *)

Module prometheus.

Record Desc : Type := {
  fqName : string;
  help : string;
  variableLabels : list string
}.

Definition NewDesc (fqName help : string) (variableLabels : list string)
  : Desc :=
  {| fqName := fqName; help := help; variableLabels := variableLabels |}.

(** A constant gauge sample. *)
Record Metric : Type := {
  desc : Desc;
  value : float64;
  labelValues : list string
}.

(** [MustNewConstMetric] panics when the number of label values is not
    the number of the descriptor's labels.  (It also rejects label values
    that are not valid UTF-8; the strings of a decoded API response always
    are, and this check is left out.) *)
Definition MustNewConstMetric (d : Desc) (v : float64)
    (labelValues : list string) : outcome Metric :=
  if (length labelValues =? length (variableLabels d))%nat
  then Ret {| desc := d; value := v; labelValues := labelValues |}
  else Panic "inconsistent label cardinality".

(** The value a sample carries for the label called [l], if the
    descriptor has that label. *)
Fixpoint lookup_label (names values : list string) (l : string)
  : option string :=
  match names, values with
  | n :: names', v :: values' =>
      if String.eqb n l then Some v else lookup_label names' values' l
  | _, _ => None
  end.

Definition label (m : Metric) (l : string) : option string :=
  lookup_label (variableLabels (desc m)) (labelValues m) l.

End prometheus.

Module config.
Record Target : Type := { Repos : list string; Timeout : Z }.
End config.

Module level.
Inductive t : Type := Error | Info.
End level.

(** One line of the structured log: the level, the logger's ["collector"]
    context, the message and the target it is about. *)
Record LogLine : Type := {
  line_level : level.t;
  line_collector : string;
  line_msg : string;
  line_name : string
}.

(** What a poll changes: the failure counter vector (one counter per label
    value; the collectors are handed one and the same vector, so it is
    never nil here), the channel the samples are sent on, the duration
    histogram (the label of each observation; the observed wall-clock time
    is left out), the log, and the requests made to the API. *)
Record State : Type := {
  failures : gmap string nat;
  ch : list prometheus.Metric;
  duration : list string;
  logs : list LogLine;
  calls : list github.Call
}.

(** A step of a poll: it ends with a value, a panic or out of fuel, and
    leaves the state it has reached. *)
Definition M (A : Type) : Type := State -> outcome A * State.

Definition ret {A} (a : A) : M A := fun st => (Ret a, st).

(** Sequencing; a panic ends the poll where it happens. *)
Definition bind {A B} (m : M A) (k : A -> M B) : M B :=
  fun st =>
    match m st with
    | (Ret a, st') => k a st'
    | (Panic msg, st') => (Panic msg, st')
    | (Diverge, st') => (Diverge, st')
    end.

(** A step that does not touch the state. *)
Definition lift {A} (o : outcome A) : M A := fun st => (o, st).

Declare Scope M_scope.
Delimit Scope M_scope with M.
Notation "x <- c ;; k" := (bind c (fun x => k))
  (at level 100, c at next level, right associativity) : M_scope.
Notation "c ;;; k" := (bind c (fun _ => k))
  (at level 100, right associativity) : M_scope.

(** [ch <- m] *)
Definition send (m : prometheus.Metric) : M unit :=
  fun st =>
    (Ret tt,
     {| failures := failures st; ch := ch st ++ [m]; duration := duration st;
        logs := logs st; calls := calls st |}).

(** [failures.WithLabelValues(lv).Add(n)]; the counter is created when it
    does not exist yet. *)
Definition failures_Add (lv : string) (n : nat) : M unit :=
  fun st =>
    (Ret tt,
     {| failures := <[lv := (default 0%nat (failures st !! lv) + n)%nat]>
                      (failures st);
        ch := ch st; duration := duration st; logs := logs st;
        calls := calls st |}).

(** [failures.WithLabelValues(lv).Inc()] *)
Definition failures_Inc (lv : string) : M unit := failures_Add lv 1.

(** [duration.WithLabelValues(lv).Observe(...)] *)
Definition duration_Observe (lv : string) : M unit :=
  fun st =>
    (Ret tt,
     {| failures := failures st; ch := ch st;
        duration := duration st ++ [lv]; logs := logs st;
        calls := calls st |}).

(** [level.Error(c.logger).Log(...)] and [level.Info(c.logger).Log(...)] *)
Definition Log (l : LogLine) : M unit :=
  fun st =>
    (Ret tt,
     {| failures := failures st; ch := ch st; duration := duration st;
        logs := logs st ++ [l]; calls := calls st |}).

(** A request: it is recorded, and the client's answer is returned. *)
Definition call {A} (c : github.Call) (answer : goresult A)
  : M (goresult A) :=
  fun st =>
    (Ret answer,
     {| failures := failures st; ch := ch st; duration := duration st;
        logs := logs st; calls := calls st ++ [c] |}).

(** [ch <- prometheus.MustNewConstMetric(d, prometheus.GaugeValue, v, ls...)] *)
Definition emit (d : prometheus.Desc) (v : float64) (ls : list string)
  : M unit :=
  (m <- lift (prometheus.MustNewConstMetric d v ls) ;; send m)%M.

(** [if p != nil { ... }], the body using the pointer's target. *)
Definition when_some {A} (p : option A) (body : A -> M unit) : M unit :=
  match p with
  | Some a => body a
  | None => ret tt
  end.

(** [for i, x := range xs { body(i, x) }], from index [i] on. *)
Fixpoint range_from {A} (i : nat) (xs : list A) (body : nat -> A -> M unit)
  : M unit :=
  match xs with
  | [] => ret tt
  | x :: xs' => (body i x ;;; range_from (S i) xs' body)%M
  end.

Definition range {A} (xs : list A) (body : nat -> A -> M unit) : M unit :=
  range_from 0 xs body.

Definition string_or_empty (ptr : option string) : string :=
  match ptr with
  | None => ""
  | Some s => s
  end.

Definition string_int_or_empty (ptr : option Z) : string :=
  match ptr with
  | None => ""
  | Some n => Sprint n
  end.

Definition string_int64_or_empty (ptr : option Z) : string :=
  match ptr with
  | None => ""
  | Some n => Sprint n
  end.

Definition string_time_or_empty (ptr : option time.Time) : string :=
  match ptr with
  | None => ""
  | Some t => time.String_ t
  end.

Definition string_bool_or_empty (ptr : option bool) : string :=
  match ptr with
  | None => ""
  | Some b => FormatBool b
  end.

Definition boolToFloat64 (val : bool) : float64 := if val then 1 else 0.

(** The loop [for _, git_label := range record.Labels] that the issue and
    the pull request collector run before they build their labels: it
    dereferences the name of every label that is not nil. *)
Fixpoint label_names (labels : list (option github.Label.t))
  : outcome (list string) :=
  match labels with
  | [] => Ret []
  | None :: rest => label_names rest
  | Some git_label :: rest =>
      (n <~ deref (github.Label.Name git_label) ;;
       ns <~ label_names rest ;;
       Ret (n :: ns))%outcome
  end.

(** [if len(record.Labels) > 0 { label = string_or_empty(record.Labels[0].Name) }]
    with [label] initially empty. *)
Definition first_label (labels : list (option github.Label.t))
  : outcome string :=
  match labels with
  | [] => Ret ""
  | l0 :: _ =>
      (l <~ deref l0 ;; Ret (string_or_empty (github.Label.Name l)))%outcome
  end.

(** [if u != nil { login = string_or_empty(u.Login) }] with [login]
    initially empty. *)
Definition login_or_empty (u : option github.User.t) : string :=
  match u with
  | Some u' => string_or_empty (github.User.Login u')
  | None => ""
  end.

(** *** reposByOwnerAndName

    Every collector carries the same method; it only uses the collector's
    client. *)

Section Resolver.
Variable client : github.Client.
Local Open Scope M_scope.

(** The [for] loop of the search branch; [opts] and [repos] are the
    loop's variables. *)
Fixpoint search_loop (fuel : nat) (owner : string)
    (opts : github.SearchOptions)
    (repos : list (option github.Repository.t))
  : M (goresult (list (option github.Repository.t))) :=
  match fuel with
  | O => lift Diverge
  | S fuel' =>
      let query := "user:" +:+ owner in
      r <- call (github.CallSearch query opts)
             (github.Search_Repositories client query opts) ;;
      match r with
      | GoErr err => ret (GoErr err)
      | GoOk (result, resp) =>
          let repos := (repos ++ github.Repositories result)%list in
          if github.NextPage resp =? 0 then ret (GoOk repos)
          else
            let opts :=
              {| github.SearchOptions_ListOptions :=
                   {| github.Page := github.NextPage resp;
                      github.PerPage :=
                        github.PerPage
                          (github.SearchOptions_ListOptions opts) |} |} in
            search_loop fuel' owner opts repos
      end
  end.

Definition reposByOwnerAndName (fuel : nat) (owner repo : string)
  : M (goresult (list (option github.Repository.t))) :=
  if strings.Contains repo "*" then
    let opts :=
      {| github.SearchOptions_ListOptions :=
           {| github.Page := 0; github.PerPage := 50 |} |} in
    search_loop fuel owner opts []
  else
    r <- call (github.CallGet owner repo)
           (github.Repositories_Get client owner repo) ;;
    match r with
    | GoErr err => ret (GoErr err)
    | GoOk res => ret (GoOk [Some res])
    end.

End Resolver.

(** ** The repository collector (src/unnamed/part_000) *)

Module repo.
Import github.Repository prometheus.
Local Open Scope M_scope.

Record RepoCollector : Type := {
  client : github.Client;
  logger : string;
  config : config.Target;
  All : Desc;
  Forked : Desc;
  Forks : Desc;
  Network : Desc;
  Issues : Desc;
  Stargazers : Desc;
  Subscribers : Desc;
  Watchers : Desc;
  Size_ : Desc;
  AllowRebaseMerge_ : Desc;
  AllowSquashMerge_ : Desc;
  AllowMergeCommit_ : Desc;
  Archived_ : Desc;
  Private_ : Desc;
  HasIssues_ : Desc;
  HasWiki_ : Desc;
  HasPages_ : Desc;
  HasProjects_ : Desc;
  HasDownloads_ : Desc;
  Pushed : Desc;
  Created : Desc;
  Updated : Desc
}.

(** The collector [NewRepoCollector] returns. *)
Definition make (client : github.Client) (cfg : config.Target)
  : RepoCollector :=
  let labels := ["owner"; "name"] in
  {|
    client := client;
    logger := "repo";
    config := cfg;
    All := NewDesc "github_repo_all" "All info about github repo"
             ["forks"; "network"; "issues"; "stargazers"; "subscribers";
              "watchers"; "size"];
    Pushed := NewDesc "github_repo_pushed_timestamp"
                "Timestamp of the last push to repo" labels;
    Created := NewDesc "github_repo_created_timestamp"
                 "Timestamp of the creation of repo" labels;
    Updated := NewDesc "github_repo_updated_timestamp"
                 "Timestamp of the last modification of repo" labels;
    Forked := NewDesc "github_repo_forked"
                "Show if this repository is a forked repository" labels;
    Forks := NewDesc "github_repo_forks"
               "How often has this repository been forked" labels;
    Network := NewDesc "github_repo_network"
                 "Number of repositories in the network" labels;
    Issues := NewDesc "github_repo_issues"
                "Number of open issues on this repository" labels;
    Stargazers := NewDesc "github_repo_stargazers"
                    "Number of stargazers on this repository" labels;
    Subscribers := NewDesc "github_repo_subscribers"
                     "Number of subscribers on this repository" labels;
    Watchers := NewDesc "github_repo_watchers"
                  "Number of watchers on this repository" labels;
    Size_ := NewDesc "github_repo_size"
               "Size of the repository content" labels;
    AllowRebaseMerge_ := NewDesc "github_repo_allow_rebase_merge"
               "Show if this repository allows rebase merges" labels;
    AllowSquashMerge_ := NewDesc "github_repo_allow_squash_merge"
               "Show if this repository allows squash merges" labels;
    AllowMergeCommit_ := NewDesc "github_repo_allow_merge_commit"
               "Show if this repository allows merge commits" labels;
    Archived_ := NewDesc "github_repo_archived"
               "Show if this repository have been archived" labels;
    Private_ := NewDesc "github_repo_private"
               "Show iof this repository is private" labels;
    HasIssues_ := NewDesc "github_repo_has_issues"
               "Show if this repository got issues enabled" labels;
    HasWiki_ := NewDesc "github_repo_has_wiki"
               "Show if this repository got wiki enabled" labels;
    HasPages_ := NewDesc "github_repo_has_pages"
               "Show if this repository got pages enabled" labels;
    HasProjects_ := NewDesc "github_repo_has_projects"
               "Show if this repository got projects enabled" labels;
    HasDownloads_ := NewDesc "github_repo_has_downloads"
               "Show if this repository got downloads enabled" labels
  |}.

(** [failures.WithLabelValues("repo").Add(0)], then the collector. *)
Definition NewRepoCollector (client : github.Client) (cfg : config.Target)
  : M RepoCollector :=
  failures_Add "repo" 0 ;;; ret (make client cfg).

Definition Metrics (c : RepoCollector) : list Desc :=
  [All c; Forked c; Forks c; Network c; Issues c; Stargazers c;
   Subscribers c; Watchers c; Size_ c; AllowRebaseMerge_ c;
   AllowSquashMerge_ c; AllowMergeCommit_ c; Archived_ c; Private_ c;
   HasIssues_ c; HasWiki_ c; HasPages_ c; HasProjects_ c; HasDownloads_ c;
   Pushed c; Created c; Updated c].

Definition reposByOwnerAndName (c : RepoCollector) (fuel : nat)
    (owner repo : string)
  : M (goresult (list (option github.Repository.t))) :=
  reposByOwnerAndName (client c) fuel owner repo.

(** A count that is set only under its nil check: [v = ""] at first, then
    [if p != nil { v = string_int_or_empty(p); ... }]. *)
Definition count_label (p : option Z) : string :=
  match p with
  | Some _ => string_int_or_empty p
  | None => ""
  end.

(** The body of [for i, record := range records]. *)
Definition collect_record (c : RepoCollector) (name owner : string)
    (i : nat) (record : option github.Repository.t) : M unit :=
  r <- lift (deref record) ;;
  fullName <- lift (deref (FullName r)) ;;
  matched <- lift (glob.Glob name fullName) ;;
  if negb matched then ret tt
  else
    recordName <- lift (deref (Name r)) ;;
    let labels := [owner; recordName] in
    let forks := count_label (ForksCount r) in
    let networks := count_label (NetworkCount r) in
    let issues := count_label (OpenIssuesCount r) in
    let stargazers := count_label (StargazersCount r) in
    let subscribers := count_label (SubscribersCount r) in
    let watchers := count_label (WatchersCount r) in
    let size := count_label (Size r) in
    when_some (Fork r) (fun v => emit (Forked c) (boolToFloat64 v) labels) ;;;
    when_some (ForksCount r) (fun v => emit (Forks c) v labels) ;;;
    when_some (NetworkCount r) (fun v => emit (Network c) v labels) ;;;
    when_some (OpenIssuesCount r) (fun v => emit (Issues c) v labels) ;;;
    when_some (StargazersCount r)
      (fun v => emit (Stargazers c) v labels) ;;;
    when_some (SubscribersCount r)
      (fun v => emit (Subscribers c) v labels) ;;;
    when_some (WatchersCount r) (fun v => emit (Watchers c) v labels) ;;;
    when_some (Size r) (fun v => emit (Size_ c) v labels) ;;;
    when_some (AllowRebaseMerge r)
      (fun v => emit (AllowRebaseMerge_ c) (boolToFloat64 v) labels) ;;;
    when_some (AllowSquashMerge r)
      (fun v => emit (AllowSquashMerge_ c) (boolToFloat64 v) labels) ;;;
    when_some (AllowMergeCommit r)
      (fun v => emit (AllowMergeCommit_ c) (boolToFloat64 v) labels) ;;;
    when_some (Archived r)
      (fun v => emit (Archived_ c) (boolToFloat64 v) labels) ;;;
    when_some (Private r)
      (fun v => emit (Private_ c) (boolToFloat64 v) labels) ;;;
    when_some (HasIssues r)
      (fun v => emit (HasIssues_ c) (boolToFloat64 v) labels) ;;;
    when_some (HasWiki r)
      (fun v => emit (HasWiki_ c) (boolToFloat64 v) labels) ;;;
    when_some (HasPages r)
      (fun v => emit (HasPages_ c) (boolToFloat64 v) labels) ;;;
    when_some (HasProjects r)
      (fun v => emit (HasProjects_ c) (boolToFloat64 v) labels) ;;;
    when_some (HasDownloads r)
      (fun v => emit (HasDownloads_ c) (boolToFloat64 v) labels) ;;;
    pushedAt <- lift (deref (PushedAt r)) ;;
    emit (Pushed c) (time.Unix pushedAt) labels ;;;
    createdAt <- lift (deref (CreatedAt r)) ;;
    emit (Created c) (time.Unix createdAt) labels ;;;
    updatedAt <- lift (deref (UpdatedAt r)) ;;
    emit (Updated c) (time.Unix updatedAt) labels ;;;
    emit (All c) (Z.of_nat i)
      [forks; networks; issues; stargazers; subscribers; watchers; size].

(** The body of [for _, name := range c.config.Repos.Value()]. *)
Definition collect_target (c : RepoCollector) (fuel : nat) (name : string)
  : M unit :=
  match strings.Split name "/" with
  | [owner; repo] =>
      res <- reposByOwnerAndName c fuel owner repo ;;
      duration_Observe "repo" ;;;
      match res with
      | GoErr err =>
          Log {| line_level := level.Error; line_collector := logger c;
                 line_msg := "Failed to fetch repos"; line_name := name |} ;;;
          failures_Inc "repo"
      | GoOk records => range records (collect_record c name owner)
      end
  | _ =>
      Log {| line_level := level.Error; line_collector := logger c;
             line_msg := "Invalid repo name"; line_name := name |} ;;;
      failures_Inc "repo"
  end.

Definition Collect (c : RepoCollector) (fuel : nat) : M unit :=
  range (config.Repos (config c)) (fun _ name => collect_target c fuel name).

End repo.

(** ** The issue collector (src/unnamed/part_001) *)

Module issue.
Import github.Issue prometheus.
Local Open Scope M_scope.

Record IssueCollector : Type := {
  client : github.Client;
  logger : string;
  config : config.Target;
  All : Desc
}.

(** The collector [NewIssueCollector] returns. *)
Definition make (client : github.Client) (cfg : config.Target)
  : IssueCollector :=
  {|
    client := client;
    logger := "repo";
    config := cfg;
    All := NewDesc "github_issues_all" "All info about github issues"
             ["id"; "status"; "locked"; "title"; "body"; "user";
              "author_association"; "label"; "num_comments"; "created_at";
              "updated_at"; "url"; "html_url"; "reactions_total";
              "reactions_plus_one"; "reactions_minus_one"; "assignee"]
  |}.

(** [failures.WithLabelValues("repo").Add(0)], then the collector. *)
Definition NewIssueCollector (client : github.Client) (cfg : config.Target)
  : M IssueCollector :=
  failures_Add "repo" 0 ;;; ret (make client cfg).

Definition Metrics (c : IssueCollector) : list Desc := [All c].

Definition reposByOwnerAndName (c : IssueCollector) (fuel : nat)
    (owner repo : string)
  : M (goresult (list (option github.Repository.t))) :=
  reposByOwnerAndName (client c) fuel owner repo.

(** [locked] starts as ["true"]; nil makes it empty, false ["false"]. *)
Definition locked_label (p : option bool) : string :=
  match p with
  | None => ""
  | Some false => "false"
  | Some true => "true"
  end.

(** The label values of the sample of one record, in the order they are
    passed to [MustNewConstMetric]. *)
Definition all_labels (record : github.Issue.t) : outcome (list string) :=
  (let id := string_int64_or_empty (ID record) in
   let locked := locked_label (Locked record) in
   labels <~ label_names (Labels record) ;;
   label <~ first_label (Labels record) ;;
   let assignee := login_or_empty (Assignee record) in
   let user := login_or_empty (User record) in
   reactions <~ deref (Reactions record) ;;
   Ret [id;
        string_or_empty (State record);
        locked;
        string_or_empty (Title record);
        string_or_empty (Body record);
        user;
        string_or_empty (AuthorAssociation record);
        label;
        string_int_or_empty (Comments record);
        string_time_or_empty (CreatedAt record);
        string_time_or_empty (UpdatedAt record);
        string_or_empty (URL record);
        string_or_empty (HTMLURL record);
        string_int_or_empty (github.Reactions.TotalCount reactions);
        string_int_or_empty (github.Reactions.PlusOne reactions);
        string_int_or_empty (github.Reactions.MinusOne reactions);
        assignee])%outcome.

(** The body of [for i, record := range issues]. *)
Definition collect_record (c : IssueCollector) (i : nat)
    (record : option github.Issue.t) : M unit :=
  match record with
  | None => ret tt
  | Some r =>
      ls <- lift (all_labels r) ;;
      emit (All c) (Z.of_nat i) ls
  end.

(** The body of [for _, name := range c.config.Repos.Value()]. *)
Definition collect_target (c : IssueCollector) (name : string) : M unit :=
  match strings.Split name "/" with
  | [owner; repo] =>
      res <- call (github.CallIssuesList owner repo)
               (github.Issues_ListByRepo (client c) owner repo) ;;
      match res with
      | GoErr err =>
          Log {| line_level := level.Info; line_collector := logger c;
                 line_msg := "Failed to fetch issues.";
                 line_name := name |} ;;;
          failures_Inc "repo"
      | GoOk issues => range issues (collect_record c)
      end
  | _ =>
      Log {| line_level := level.Error; line_collector := logger c;
             line_msg := "Invalid repo name"; line_name := name |} ;;;
      failures_Inc "repo"
  end.

Definition Collect (c : IssueCollector) : M unit :=
  range (config.Repos (config c)) (fun _ name => collect_target c name).

End issue.

(** ** The issue collector (src/pkg/exporter/issues.go)

    This revision declares the per-field descriptors, does not test the
    record for nil and passes empty strings for the two timestamps. *)

Module issues_go.
Import github.Issue prometheus.
Local Open Scope M_scope.

Record IssueCollector : Type := {
  client : github.Client;
  logger : string;
  config : config.Target;
  All : Desc;
  Status : Desc;
  Locked_ : Desc;
  Title_ : Desc;
  Body_ : Desc;
  AuthorityAssociation : Desc;
  User_ : Desc;
  Labels_ : Desc;
  Comments_ : Desc;
  CreatedAt_ : Desc;
  UpdatedAt_ : Desc;
  URL_ : Desc;
  HTMLURL_ : Desc;
  Reactions_ : Desc;
  PlusOne : Desc;
  MinusOne : Desc;
  Assignees : Desc
}.

(** The collector [NewIssueCollector] returns. *)
Definition make (client : github.Client) (cfg : config.Target)
  : IssueCollector :=
  let labels := ["locked"] in
  let h := "Wheather the issue is locked" in
  {|
    client := client;
    logger := "repo";
    config := cfg;
    All := NewDesc "github_issues_all" "All info about github issues"
             ["id"; "status"; "locked"; "title"; "body"; "user";
              "author_association"; "label"; "num_comments"; "created_at";
              "updated_at"; "url"; "html_url"; "reactions_total";
              "reactions_plus_one"; "reactions_minus_one"; "assignee"];
    Status := NewDesc "github_issues_status" "Status of the issue"
                ["id"; "status"];
    Locked_ := NewDesc "github_issues_locked" h ["id"; "locked"];
    Title_ := NewDesc "github_issues_title" h ["id"; "title"];
    Body_ := NewDesc "github_issues_body" h ["id"; "body"];
    AuthorityAssociation :=
      NewDesc "github_issues_authority_association" h labels;
    User_ := NewDesc "github_issues_user" h labels;
    Labels_ := NewDesc "github_issues_labels" h labels;
    Comments_ := NewDesc "github_issues_comments" h labels;
    CreatedAt_ := NewDesc "github_issues_created_at" h labels;
    UpdatedAt_ := NewDesc "github_issues_updated_at" h labels;
    URL_ := NewDesc "github_issues_url" h labels;
    HTMLURL_ := NewDesc "github_issues_html_url" h labels;
    Reactions_ := NewDesc "github_issues_reactions" h labels;
    PlusOne := NewDesc "github_issues_plus_one" h labels;
    MinusOne := NewDesc "github_issues_minus_one" h labels;
    Assignees := NewDesc "github_issues_assignees" h labels
  |}.

(** [failures.WithLabelValues("repo").Add(0)], then the collector. *)
Definition NewIssueCollector (client : github.Client) (cfg : config.Target)
  : M IssueCollector :=
  failures_Add "repo" 0 ;;; ret (make client cfg).

Definition Metrics (c : IssueCollector) : list Desc :=
  [All c; Status c; Locked_ c; Title_ c; Body_ c; AuthorityAssociation c;
   User_ c; Labels_ c; Comments_ c; CreatedAt_ c; UpdatedAt_ c; URL_ c;
   HTMLURL_ c; Reactions_ c; PlusOne c; MinusOne c; Assignees c].

Definition reposByOwnerAndName (c : IssueCollector) (fuel : nat)
    (owner repo : string)
  : M (goresult (list (option github.Repository.t))) :=
  reposByOwnerAndName (client c) fuel owner repo.

Definition all_labels (record : option github.Issue.t)
  : outcome (list string) :=
  (r <~ deref record ;;
   let id := string_int64_or_empty (ID r) in
   let locked := issue.locked_label (Locked r) in
   labels <~ label_names (Labels r) ;;
   label <~ first_label (Labels r) ;;
   let assignee := login_or_empty (Assignee r) in
   let user := login_or_empty (User r) in
   reactions <~ deref (Reactions r) ;;
   Ret [id;
        string_or_empty (State r);
        locked;
        string_or_empty (Title r);
        string_or_empty (Body r);
        user;
        string_or_empty (AuthorAssociation r);
        label;
        string_int_or_empty (Comments r);
        "";
        "";
        string_or_empty (URL r);
        string_or_empty (HTMLURL r);
        string_int_or_empty (github.Reactions.TotalCount reactions);
        string_int_or_empty (github.Reactions.PlusOne reactions);
        string_int_or_empty (github.Reactions.MinusOne reactions);
        assignee])%outcome.

(** The body of [for i, record := range issues]. *)
Definition collect_record (c : IssueCollector) (i : nat)
    (record : option github.Issue.t) : M unit :=
  ls <- lift (all_labels record) ;;
  emit (All c) (Z.of_nat i) ls.

(** The body of [for _, name := range c.config.Repos.Value()]. *)
Definition collect_target (c : IssueCollector) (name : string) : M unit :=
  match strings.Split name "/" with
  | [owner; repo] =>
      res <- call (github.CallIssuesList owner repo)
               (github.Issues_ListByRepo (client c) owner repo) ;;
      match res with
      | GoErr err =>
          Log {| line_level := level.Info; line_collector := logger c;
                 line_msg := "Failed to fetch issues.";
                 line_name := name |} ;;;
          failures_Inc "repo"
      | GoOk issues => range issues (collect_record c)
      end
  | _ =>
      Log {| line_level := level.Error; line_collector := logger c;
             line_msg := "Invalid repo name"; line_name := name |} ;;;
      failures_Inc "repo"
  end.

Definition Collect (c : IssueCollector) : M unit :=
  range (config.Repos (config c)) (fun _ name => collect_target c name).

End issues_go.

(** ** The pull request collector (src/pkg/exporter/pull_request.go) *)

Module pull_request.
Import github.PullRequest prometheus.
Local Open Scope M_scope.

Record PullRequestCollector : Type := {
  client : github.Client;
  logger : string;
  config : config.Target;
  All : Desc
}.

(** The collector [NewPullRequestCollector] returns. *)
Definition make (client : github.Client) (cfg : config.Target)
  : PullRequestCollector :=
  {|
    client := client;
    logger := "repo";
    config := cfg;
    All := NewDesc "github_pull_requests_all"
             "All info about github pull requests"
             ["number"; "state"; "title"; "body"; "created_at"; "labels";
              "user"; "merged"; "comments"; "commits"; "additions";
              "deletions"; "changed_files"; "html_url"; "review_comments";
              "assignee"; "assignees"; "author_association";
              "requested_reviewers"]
  |}.

(** [failures.WithLabelValues("repo").Add(0)], then the collector. *)
Definition NewPullRequestCollector (client : github.Client) (cfg : config.Target)
  : M PullRequestCollector :=
  failures_Add "repo" 0 ;;; ret (make client cfg).

Definition Metrics (c : PullRequestCollector) : list Desc := [All c].

Definition reposByOwnerAndName (c : PullRequestCollector) (fuel : nat)
    (owner repo : string)
  : M (goresult (list (option github.Repository.t))) :=
  reposByOwnerAndName (client c) fuel owner repo.

(** The label values of the sample of one record, in the order they are
    passed to [MustNewConstMetric]. *)
Definition all_labels (record : github.PullRequest.t)
  : outcome (list string) :=
  (labels <~ label_names (Labels record) ;;
   label <~ first_label (Labels record) ;;
   let assignee := login_or_empty (Assignee record) in
   let user := login_or_empty (User record) in
   let number :=
     match Number record with
     | Some _ => string_int_or_empty (Number record)
     | None => ""
     end in
   let state :=
     match State record with
     | Some _ => string_or_empty (State record)
     | None => ""
     end in
   let title :=
     match Title record with
     | Some _ => string_or_empty (Title record)
     | None => ""
     end in
   let merged :=
     match Merged record with
     | Some _ => string_bool_or_empty (Merged record)
     | None => ""
     end in
   Ret [number;
        state;
        title;
        string_or_empty (Body record);
        string_time_or_empty (CreatedAt record);
        label;
        user;
        merged;
        string_int_or_empty (Comments record);
        string_int_or_empty (Commits record);
        string_int_or_empty (Additions record);
        string_int_or_empty (Deletions record);
        string_int_or_empty (ChangedFiles record);
        string_or_empty (HTMLURL record);
        string_int_or_empty (ReviewComments record);
        assignee;
        "";
        string_or_empty (AuthorAssociation record);
        ""])%outcome.

(** The body of [for i, record := range pullRequests]. *)
Definition collect_record (c : PullRequestCollector) (i : nat)
    (record : option github.PullRequest.t) : M unit :=
  match record with
  | None => ret tt
  | Some r =>
      ls <- lift (all_labels r) ;;
      emit (All c) (Z.of_nat i) ls
  end.

(** The body of [for _, name := range c.config.Repos.Value()]. *)
Definition collect_target (c : PullRequestCollector) (name : string)
  : M unit :=
  match strings.Split name "/" with
  | [owner; repo] =>
      res <- call (github.CallPullsList owner repo)
               (github.PullRequests_List (client c) owner repo) ;;
      match res with
      | GoErr err =>
          Log {| line_level := level.Info; line_collector := logger c;
                 line_msg := "Failed to fetch issues.";
                 line_name := name |} ;;;
          failures_Inc "repo"
      | GoOk pullRequests => range pullRequests (collect_record c)
      end
  | _ =>
      Log {| line_level := level.Error; line_collector := logger c;
             line_msg := "Invalid repo name"; line_name := name |} ;;;
      failures_Inc "repo"
  end.

Definition Collect (c : PullRequestCollector) : M unit :=
  range (config.Repos (config c)) (fun _ name => collect_target c name).

End pull_request.

(** * Vocabulary of the properties *)

(** ** Glob matching: what [glob.Glob] decides *)

(** The meaning of a pattern: [*] stands for any run of bytes, every other
    byte for itself (so the match is case-sensitive), and the pattern has
    to cover the whole subject. *)
Inductive glob_match : string -> string -> Prop :=
| match_nil : glob_match "" ""
| match_star p s t :
    glob_match p t -> glob_match (String "*" p) (s +:+ t)
| match_byte c p s :
    c <> "*"%char -> glob_match p s -> glob_match (String c p) (String c s).

(** The same in terms of the parts between the stars: after the first part,
    every part is found somewhere further right, and the last one ends the
    subject. *)
Fixpoint match_rest (parts : list string) (s : string) : Prop :=
  match parts with
  | [] => s = ""
  | p :: parts' => exists a b, s = a +:+ p +:+ b /\ match_rest parts' b
  end.

Definition match_parts (parts : list string) (s : string) : Prop :=
  match parts with
  | [] => False
  | p0 :: parts' => exists b, s = p0 +:+ b /\ match_rest parts' b
  end.

(** The middle parts, then a subject that ends with [last]. *)
Fixpoint match_mid (mid : list string) (last s : string) : Prop :=
  match mid with
  | [] => exists a, s = a +:+ last
  | p :: mid' => exists a b, s = a +:+ p +:+ b /\ match_mid mid' last b
  end.


(** ** Repository records *)




(** ** What a poll does to the state *)

(** The state with [ms] sent on the channel. *)
Definition push_all (ms : list prometheus.Metric) (st : State) : State :=
  {| failures := failures st; ch := ch st ++ ms; duration := duration st;
     logs := logs st; calls := calls st |}.

(** The state with the requests [cs] made. *)
Definition add_calls (cs : list github.Call) (st : State) : State :=
  {| failures := failures st; ch := ch st; duration := duration st;
     logs := logs st; calls := calls st ++ cs |}.

(** The state after one counted and logged failure of the kind [lv]. *)
Definition count_failure (lv : string) (l : LogLine) (st : State) : State :=
  {| failures := <[lv := (default 0%nat (failures st !! lv) + 1)%nat]>
                   (failures st);
     ch := ch st; duration := duration st; logs := logs st ++ [l];
     calls := calls st |}.

(** The label values of the samples of the metric called [fq], in the
    order they were sent. *)
Definition samples_of (fq : string) (ms : list prometheus.Metric)
  : list (list string) :=
  map prometheus.labelValues
    (List.filter (fun m => String.eqb (prometheus.fqName (prometheus.desc m)) fq)
       ms).

(** [m] returns [a] and sends samples of which those of the metric [fq]
    carry the label values [lss]; it changes nothing else. *)
Definition sends {A} (fq : string) (m : M A) (a : A)
    (lss : list (list string)) : Prop :=
  forall st, exists ms,
    m st = (Ret a, push_all ms st) /\ samples_of fq ms = lss.

(** [st'] is [st] with more samples on the channel, all of them
    satisfying [Q]. *)
Definition extends_with (Q : prometheus.Metric -> Prop) (st st' : State)
  : Prop :=
  exists ms, ch st' = ch st ++ ms /\ Forall Q ms.

(** Whatever [m] does, and however it ends, the samples it sends
    satisfy [Q]. *)
Definition only_sends {A} (Q : prometheus.Metric -> Prop) (m : M A) : Prop :=
  forall st o st', m st = (o, st') -> extends_with Q st st'.


(** The two labels of [github_pull_requests_all] that stand for lists of
    users are empty. *)
Definition no_user_lists (m : prometheus.Metric) : Prop :=
  prometheus.label m "assignees" = Some "" /\
  prometheus.label m "requested_reviewers" = Some "".

(** Whatever [m] does, the requests it makes are [cs]. *)
Definition requests {A} (m : M A) (cs : list github.Call) : Prop :=
  forall st o st', m st = (o, st') -> calls st' = calls st ++ cs.

(** ** Optional text fields and the labels they are rendered in *)

(** The login of a user that may be absent. *)
Definition login (u : option github.User.t) : option string :=
  match u with
  | Some u' => github.User.Login u'
  | None => None
  end.

(** The name of the first label, if there is one and it has a name. *)
Definition first_label_name (labels : list (option github.Label.t))
  : option string :=
  match labels with
  | Some l :: _ => github.Label.Name l
  | _ => None
  end.

(** The optional text fields of an issue, each with the label of
    [github_issues_all] that renders it. *)
Definition issue_text_fields (r : github.Issue.t)
  : list (string * option string) :=
  [("status", github.Issue.State r);
   ("title", github.Issue.Title r);
   ("body", github.Issue.Body r);
   ("user", login (github.Issue.User r));
   ("author_association", github.Issue.AuthorAssociation r);
   ("label", first_label_name (github.Issue.Labels r));
   ("url", github.Issue.URL r);
   ("html_url", github.Issue.HTMLURL r);
   ("assignee", login (github.Issue.Assignee r))].

(** The optional text fields of a pull request, each with the label of
    [github_pull_requests_all] that renders it. *)
Definition pull_request_text_fields (r : github.PullRequest.t)
  : list (string * option string) :=
  [("state", github.PullRequest.State r);
   ("title", github.PullRequest.Title r);
   ("body", github.PullRequest.Body r);
   ("labels", first_label_name (github.PullRequest.Labels r));
   ("user", login (github.PullRequest.User r));
   ("html_url", github.PullRequest.HTMLURL r);
   ("assignee", login (github.PullRequest.Assignee r));
   ("author_association", github.PullRequest.AuthorAssociation r)].

(** The label values [ls] render every field of the table [fields] under
    its label among [names]: the text when present, the empty string when
    absent. *)
Definition renders (names ls : list string)
    (fields : list (string * option string)) : Prop :=
  Forall (fun f => prometheus.lookup_label names ls (fst f)
                   = Some (string_or_empty (snd f))) fields.

(** ** Runs of the paginated search *)

(** The options of the next round: [opts.Page = resp.NextPage]. *)
Definition next_page (opts : github.SearchOptions) (resp : github.Response)
  : github.SearchOptions :=
  {| github.SearchOptions_ListOptions :=
       {| github.Page := github.NextPage resp;
          github.PerPage :=
            github.PerPage (github.SearchOptions_ListOptions opts) |} |}.

(** The options of the first round. *)
Definition first_page : github.SearchOptions :=
  {| github.SearchOptions_ListOptions :=
       {| github.Page := 0; github.PerPage := 50 |} |}.

(** The repositories of one round put before the outcome of the later
    rounds. *)
Definition prepend (rs : list (option github.Repository.t))
    (res : goresult (list (option github.Repository.t)))
  : goresult (list (option github.Repository.t)) :=
  match res with
  | GoOk rest => GoOk (rs ++ rest)%list
  | GoErr err => GoErr err
  end.

(** [search_run client owner opts cs res]: asked from [opts] on, the API
    answers the requests [cs], one per round, and the rounds end with
    [res]: an error ends them at once, a response without a next page ends
    them with the pages of all rounds, and any other response leads to the
    round of its next page. *)
Inductive search_run (client : github.Client) (owner : string)
  : github.SearchOptions -> list github.Call ->
    goresult (list (option github.Repository.t)) -> Prop :=
| run_error opts err :
    github.Search_Repositories client ("user:" +:+ owner) opts = GoErr err ->
    search_run client owner opts
      [github.CallSearch ("user:" +:+ owner) opts] (GoErr err)
| run_last opts result resp :
    github.Search_Repositories client ("user:" +:+ owner) opts
    = GoOk (result, resp) ->
    github.NextPage resp = 0 ->
    search_run client owner opts
      [github.CallSearch ("user:" +:+ owner) opts]
      (GoOk (github.Repositories result))
| run_next opts result resp cs res :
    github.Search_Repositories client ("user:" +:+ owner) opts
    = GoOk (result, resp) ->
    github.NextPage resp <> 0 ->
    search_run client owner (next_page opts resp) cs res ->
    search_run client owner opts
      (github.CallSearch ("user:" +:+ owner) opts :: cs)
      (prepend (github.Repositories result) res).

(** The next page a request is answered with, if it is answered. *)
Definition answered_next (client : github.Client) (c : github.Call)
  : option Z :=
  match c with
  | github.CallSearch query opts =>
      match github.Search_Repositories client query opts with
      | GoOk (_, resp) => Some (github.NextPage resp)
      | GoErr _ => None
      end
  | _ => None
  end.

(** The state with one observation of the kind [lv] in the duration
    histogram. *)
Definition observed (lv : string) (st : State) : State :=
  {| failures := failures st; ch := ch st; duration := duration st ++ [lv];
     logs := logs st; calls := calls st |}.

(** The log line of a malformed entry and of a failed fetch. *)
Definition invalid_name (collector name : string) : LogLine :=
  {| line_level := level.Error; line_collector := collector;
     line_msg := "Invalid repo name"; line_name := name |}.

Definition failed_repos (collector name : string) : LogLine :=
  {| line_level := level.Error; line_collector := collector;
     line_msg := "Failed to fetch repos"; line_name := name |}.


(** The repositories a request is answered with. *)
Definition answered_repos (client : github.Client) (c : github.Call)
  : list (option github.Repository.t) :=
  match c with
  | github.CallSearch query opts =>
      match github.Search_Repositories client query opts with
      | GoOk (result, _) => github.Repositories result
      | GoErr _ => []
      end
  | _ => []
  end.

(** One failure of the kind [lv] was counted between [st] and [st'], no
    other counter moved and no sample was sent. *)
Definition one_failure_no_sample (lv : string) (st st' : State) : Prop :=
  failures st' !! lv = Some (default 0%nat (failures st !! lv) + 1)%nat /\
  (forall lv', lv' <> lv -> failures st' !! lv' = failures st !! lv') /\
  ch st' = ch st.

(** The round of [x] ends normally in [st'], and the loop goes on from
    there with whatever follows [x]. *)
Definition goes_on {A} (body : nat -> A -> M unit) (i : nat) (x : A)
    (st st' : State) : Prop :=
  body i x st = (Ret tt, st') /\
  forall xs, range_from i (x :: xs) body st = range_from (S i) xs body st'.

(** ** Inputs of the examples *)

(** A state before any poll. *)
Definition empty_state : State :=
  {| failures := ∅; ch := []; duration := []; logs := []; calls := [] |}.

(** An API out of reach: every request fails. *)
Definition unreachable : github.Client :=
  {| github.Search_Repositories := fun _ _ => GoErr "connection refused";
     github.Repositories_Get := fun _ _ => GoErr "connection refused";
     github.Issues_ListByRepo := fun _ _ => GoErr "connection refused";
     github.PullRequests_List := fun _ _ => GoErr "connection refused" |}.

(** The three repositories of the owner [acme]. *)
Definition a_time : time.Time :=
  {| time.Unix := 1600000000;
     time.String_ := "2020-09-13 12:26:40 +0000 UTC" |}.

Definition acme_repo (name : string) : github.Repository.t :=
  {| github.Repository.FullName := Some ("acme/" +:+ name);
     github.Repository.Name := Some name;
     github.Repository.Fork := Some false;
     github.Repository.ForksCount := Some 3;
     github.Repository.NetworkCount := None;
     github.Repository.OpenIssuesCount := Some 1;
     github.Repository.StargazersCount := Some 7;
     github.Repository.SubscribersCount := None;
     github.Repository.WatchersCount := Some 7;
     github.Repository.Size := Some 120;
     github.Repository.AllowRebaseMerge := None;
     github.Repository.AllowSquashMerge := None;
     github.Repository.AllowMergeCommit := None;
     github.Repository.Archived := Some false;
     github.Repository.Private := Some false;
     github.Repository.HasIssues := Some true;
     github.Repository.HasWiki := Some true;
     github.Repository.HasPages := Some false;
     github.Repository.HasProjects := Some true;
     github.Repository.HasDownloads := Some true;
     github.Repository.PushedAt := Some a_time;
     github.Repository.CreatedAt := Some a_time;
     github.Repository.UpdatedAt := Some a_time |}.

(** The API of [acme]: the search answers in two pages (the second one is
    page 2), the direct fetch knows the three repositories, and the list
    endpoints are out of reach. *)
Definition acme : github.Client :=
  {| github.Search_Repositories := fun query opts =>
       if String.eqb query "user:acme" then
         if github.Page (github.SearchOptions_ListOptions opts) =? 0 then
           GoOk ({| github.Repositories :=
                      [Some (acme_repo "auth-service"); Some (acme_repo "web")] |},
                 {| github.NextPage := 2 |})
         else if github.Page (github.SearchOptions_ListOptions opts) =? 2 then
           GoOk ({| github.Repositories := [Some (acme_repo "pay-service")] |},
                 {| github.NextPage := 0 |})
         else GoErr "422 Unprocessable Entity"
       else GoErr "422 Unprocessable Entity";
     github.Repositories_Get := fun owner repo =>
       if String.eqb owner "acme"
          && (String.eqb repo "auth-service" || String.eqb repo "web"
              || String.eqb repo "pay-service")
       then GoOk (acme_repo repo)
       else GoErr "404 Not Found";
     github.Issues_ListByRepo := fun _ _ => GoErr "connection refused";
     github.PullRequests_List := fun _ _ => GoErr "connection refused" |}.

(** The two requests of the search for [acme] and what they deliver. *)
Definition second_page : github.SearchOptions :=
  {| github.SearchOptions_ListOptions :=
       {| github.Page := 2; github.PerPage := 50 |} |}.

Definition acme_calls : list github.Call :=
  [github.CallSearch "user:acme" first_page;
   github.CallSearch "user:acme" second_page].

Definition acme_repos : list (option github.Repository.t) :=
  [Some (acme_repo "auth-service"); Some (acme_repo "web");
   Some (acme_repo "pay-service")].


(** An issue of which the API delivers the id and an empty reactions
    object only, and a pull request with assignees and requested
    reviewers. *)
Definition bare_issue : github.Issue.t :=
  {| github.Issue.ID := Some 1;
     github.Issue.State := None;
     github.Issue.Locked := None;
     github.Issue.Title := None;
     github.Issue.Body := None;
     github.Issue.User := None;
     github.Issue.AuthorAssociation := None;
     github.Issue.Labels := [];
     github.Issue.Comments := None;
     github.Issue.CreatedAt := None;
     github.Issue.UpdatedAt := None;
     github.Issue.URL := None;
     github.Issue.HTMLURL := None;
     github.Issue.Reactions :=
       Some {| github.Reactions.TotalCount := None;
               github.Reactions.PlusOne := None;
               github.Reactions.MinusOne := None |};
     github.Issue.Assignee := None |}.

Definition alice : github.User.t := {| github.User.Login := Some "alice" |}.
Definition bob : github.User.t := {| github.User.Login := Some "bob" |}.

Definition reviewed_pull_request : github.PullRequest.t :=
  {| github.PullRequest.Number := Some 12;
     github.PullRequest.State := Some "open";
     github.PullRequest.Title := Some "Fix the resolver";
     github.PullRequest.Body := None;
     github.PullRequest.CreatedAt := Some a_time;
     github.PullRequest.Labels := [];
     github.PullRequest.User := Some alice;
     github.PullRequest.Merged := None;
     github.PullRequest.Comments := None;
     github.PullRequest.Commits := None;
     github.PullRequest.Additions := None;
     github.PullRequest.Deletions := None;
     github.PullRequest.ChangedFiles := None;
     github.PullRequest.HTMLURL := None;
     github.PullRequest.ReviewComments := None;
     github.PullRequest.Assignee := Some alice;
     github.PullRequest.Assignees := [Some alice; Some bob];
     github.PullRequest.AuthorAssociation := Some "MEMBER";
     github.PullRequest.RequestedReviewers := [Some bob] |}.

(** The same issue without the reactions object, a label without a
    name, and a repository without its push timestamp. *)
Definition issue_without_reactions : github.Issue.t :=
  {| github.Issue.ID := Some 1;
     github.Issue.State := Some "open";
     github.Issue.Locked := Some false;
     github.Issue.Title := Some "Crash on start";
     github.Issue.Body := None;
     github.Issue.User := Some alice;
     github.Issue.AuthorAssociation := None;
     github.Issue.Labels := [];
     github.Issue.Comments := Some 0;
     github.Issue.CreatedAt := Some a_time;
     github.Issue.UpdatedAt := Some a_time;
     github.Issue.URL := None;
     github.Issue.HTMLURL := None;
     github.Issue.Reactions := None;
     github.Issue.Assignee := None |}.

Definition nameless_label : github.Label.t := {| github.Label.Name := None |}.

Definition repo_never_pushed : github.Repository.t :=
  {| github.Repository.FullName := Some "acme/empty";
     github.Repository.Name := Some "empty";
     github.Repository.Fork := Some false;
     github.Repository.ForksCount := Some 0;
     github.Repository.NetworkCount := None;
     github.Repository.OpenIssuesCount := Some 0;
     github.Repository.StargazersCount := Some 0;
     github.Repository.SubscribersCount := None;
     github.Repository.WatchersCount := Some 0;
     github.Repository.Size := Some 0;
     github.Repository.AllowRebaseMerge := None;
     github.Repository.AllowSquashMerge := None;
     github.Repository.AllowMergeCommit := None;
     github.Repository.Archived := Some false;
     github.Repository.Private := Some false;
     github.Repository.HasIssues := Some true;
     github.Repository.HasWiki := Some true;
     github.Repository.HasPages := Some false;
     github.Repository.HasProjects := Some true;
     github.Repository.HasDownloads := Some true;
     github.Repository.PushedAt := None;
     github.Repository.CreatedAt := Some a_time;
     github.Repository.UpdatedAt := Some a_time |}.

(** An API that delivers these records for [acme/empty]. *)
Definition sparse : github.Client :=
  {| github.Search_Repositories := fun _ _ => GoErr "connection refused";
     github.Repositories_Get := fun _ _ => GoOk repo_never_pushed;
     github.Issues_ListByRepo := fun _ _ =>
       GoOk [Some issue_without_reactions];
     github.PullRequests_List := fun _ _ =>
       GoOk [Some {| github.PullRequest.Number := Some 3;
                     github.PullRequest.State := Some "open";
                     github.PullRequest.Title := None;
                     github.PullRequest.Body := None;
                     github.PullRequest.CreatedAt := None;
                     github.PullRequest.Labels := [Some nameless_label];
                     github.PullRequest.User := None;
                     github.PullRequest.Merged := None;
                     github.PullRequest.Comments := None;
                     github.PullRequest.Commits := None;
                     github.PullRequest.Additions := None;
                     github.PullRequest.Deletions := None;
                     github.PullRequest.ChangedFiles := None;
                     github.PullRequest.HTMLURL := None;
                     github.PullRequest.ReviewComments := None;
                     github.PullRequest.Assignee := None;
                     github.PullRequest.Assignees := [];
                     github.PullRequest.AuthorAssociation := None;
                     github.PullRequest.RequestedReviewers := [] |}] |}.

Definition empty_target : config.Target :=
  {| config.Repos := ["acme/empty"]; config.Timeout := 5000000000 |}.

(** The state in which the three collectors have been constructed. *)
Definition constructed (client : github.Client) (cfg : config.Target)
  : State :=
  snd ((repo.NewRepoCollector client cfg ;;;
        issue.NewIssueCollector client cfg ;;;
        pull_request.NewPullRequestCollector client cfg)%M empty_state).

(** An API whose search always names a next page. *)
Definition endless : github.Client :=
  {| github.Search_Repositories := fun _ _ =>
       GoOk ({| github.Repositories := [] |}, {| github.NextPage := 1 |});
     github.Repositories_Get := fun _ _ => GoErr "404 Not Found";
     github.Issues_ListByRepo := fun _ _ => GoErr "connection refused";
     github.PullRequests_List := fun _ _ => GoErr "connection refused" |}.

(** A configuration with the single entry ["justaname"], and one with an
    entry that cannot be fetched followed by another. *)
Definition malformed_config : config.Target :=
  {| config.Repos := ["justaname"]; config.Timeout := 5000000000 |}.

Definition two_targets : config.Target :=
  {| config.Repos := ["acme/web"; "acme/api"]; config.Timeout := 5000000000 |}.

(** * The rest of the collectors *)

(** ** Describe

    [Describe] sends the descriptors of a collector on a channel; the
    channel is the list of what is sent, in order. *)

Module Describe.

Definition repo (c : repo.RepoCollector) : list prometheus.Desc :=
  [repo.All c; repo.Forked c; repo.Forks c; repo.Network c; repo.Issues c;
   repo.Stargazers c; repo.Subscribers c; repo.Watchers c; repo.Size_ c;
   repo.AllowRebaseMerge_ c; repo.AllowSquashMerge_ c;
   repo.AllowMergeCommit_ c; repo.Archived_ c; repo.Private_ c;
   repo.HasIssues_ c; repo.HasWiki_ c; repo.HasPages_ c;
   repo.HasProjects_ c; repo.HasDownloads_ c; repo.Pushed c;
   repo.Created c; repo.Updated c].

Definition issue (c : issue.IssueCollector) : list prometheus.Desc :=
  [issue.All c].

Definition issues_go (c : issues_go.IssueCollector) : list prometheus.Desc :=
  [issues_go.All c; issues_go.Status c; issues_go.Locked_ c;
   issues_go.Title_ c; issues_go.Body_ c; issues_go.AuthorityAssociation c;
   issues_go.User_ c; issues_go.Labels_ c; issues_go.Comments_ c;
   issues_go.CreatedAt_ c; issues_go.UpdatedAt_ c; issues_go.URL_ c;
   issues_go.HTMLURL_ c; issues_go.Reactions_ c; issues_go.PlusOne c;
   issues_go.MinusOne c; issues_go.Assignees c].

Definition pull_request (c : pull_request.PullRequestCollector)
  : list prometheus.Desc :=
  [pull_request.All c].

End Describe.

(** ** Vocabulary of the further properties *)

(** [m] neither sends a sample nor counts a failure nor writes to the log
    nor observes a duration, however it ends; and the requests it makes
    all satisfy [Q]. *)
Definition only_requests {A} (Q : github.Call -> Prop) (m : M A) : Prop :=
  forall st o st',
    m st = (o, st') ->
    failures st' = failures st /\ ch st' = ch st /\
    duration st' = duration st /\ logs st' = logs st /\
    exists cs, calls st' = calls st ++ cs /\ Forall Q cs.

(** The requests the resolver may make for [owner] and [repo]: the direct
    fetch, or a search among the owner's repositories, fifty to a page. *)
Definition resolver_request (owner repo : string) (c : github.Call) : Prop :=
  c = github.CallGet owner repo \/
  exists page,
    c = github.CallSearch ("user:" +:+ owner)
          {| github.SearchOptions_ListOptions :=
               {| github.Page := page; github.PerPage := 50 |} |}.


(** [m] ends normally and sends exactly the samples [ms]; it changes
    nothing else. *)
Definition emits (m : M unit) (ms : list prometheus.Metric) : Prop :=
  forall st, m st = (Ret tt, push_all ms st).

(** Every label that is not nil has a name, and the first entry of the
    list, if there is one, is not nil: what the loop over the labels and
    the access to [Labels[0]] dereference. *)
Definition labels_named (labels : list (option github.Label.t)) : Prop :=
  Forall (fun l => match l with
                   | Some l' => is_Some (github.Label.Name l')
                   | None => True
                   end) labels.

Definition first_present (labels : list (option github.Label.t)) : Prop :=
  match labels with
  | None :: _ => False
  | _ => True
  end.

(** An entry of the list of issues that the issue collector
    (src/unnamed/part_001) gets past: nil, or an issue whose label values
    can be built. *)
Definition issue_ok (record : option github.Issue.t) : Prop :=
  match record with
  | Some r => exists ls, issue.all_labels r = Ret ls
  | None => True
  end.

(** The samples of the issues [records], the first of which is at the
    position [i] of the list the API returned: one for every issue that is
    not nil, with its position as the value. *)
Fixpoint issue_samples_from (c : issue.IssueCollector) (i : nat)
    (records : list (option github.Issue.t)) : list prometheus.Metric :=
  match records with
  | [] => []
  | None :: rest => issue_samples_from c (S i) rest
  | Some r :: rest =>
      match issue.all_labels r with
      | Ret ls =>
          [{| prometheus.desc := issue.All c;
              prometheus.value := Z.of_nat i;
              prometheus.labelValues := ls |}]
      | _ => []
      end ++ issue_samples_from c (S i) rest
  end.
















(** * Supporting facts *)

(** ** Facts about the [strings] functions *)

Module strings_facts.
Import strings.
#[local] Arguments String.append !_ _ / : simpl nomatch.

Lemma append_nil_r (s : string) : s +:+ "" = s.
Proof. induction s as [|c s IH]; simpl; [reflexivity | now rewrite IH]. Qed.

Lemma append_assoc (a b c : string) : (a +:+ b) +:+ c = a +:+ (b +:+ c).
Proof. induction a as [|x a IH]; simpl; [reflexivity | now rewrite IH]. Qed.

Lemma length_append (a b : string) :
  String.length (a +:+ b) = (String.length a + String.length b)%nat.
Proof. induction a as [|x a IH]; simpl; [reflexivity | now rewrite IH]. Qed.

Lemma len_append (a b : string) : len (a +:+ b) = len a + len b.
Proof. unfold len. rewrite length_append. lia. Qed.

Lemma len_nonneg (s : string) : 0 <= len s.
Proof. unfold len. lia. Qed.

Lemma drop_append (a b : string) : drop (String.length a) (a +:+ b) = b.
Proof. induction a as [|x a IH]; simpl; [now destruct b | exact IH]. Qed.

Lemma drop_0 (s : string) : drop 0 s = s.
Proof. now destruct s. Qed.

(** Two ways of cutting one string: the shorter head is a prefix of the
    longer one, and the tails differ by the same piece. *)
Lemma append_eq_append (x x' y y' : string) :
  x +:+ y = x' +:+ y' ->
  (String.length x <= String.length x')%nat ->
  exists c, x' = x +:+ c /\ y = c +:+ y'.
Proof.
  revert x'. induction x as [|a x IH]; intros x' Heq Hlen.
  - exists x'. split; [reflexivity | exact Heq].
  - destruct x' as [|a' x']; simpl in Hlen; [lia |].
    simpl in Heq. injection Heq as -> Heq.
    destruct (IH x' Heq) as [c [-> ->]]; [lia |].
    exists c. split; reflexivity.
Qed.

Lemma HasPrefix_spec (s p : string) :
  HasPrefix s p = true <-> exists t, s = p +:+ t.
Proof.
  revert s. induction p as [|c p IH]; intros s; simpl.
  - split; [intros _; now exists s | intros _; reflexivity].
  - destruct s as [|d s].
    + split; [discriminate | intros [t Ht]; discriminate].
    + rewrite andb_true_iff, Ascii.eqb_eq, IH. split.
      * intros [-> [t ->]]. now exists t.
      * intros [t Ht]. injection Ht as -> ->. split; [reflexivity | now exists t].
Qed.

Lemma Index_lower (s p : string) : -1 <= Index s p.
Proof.
  induction s as [|c s IH]; simpl.
  - destruct (HasPrefix "" p); lia.
  - destruct (HasPrefix (String c s) p); [lia |].
    destruct (Index s p <? 0) eqn:E; [lia |].
    apply Z.ltb_ge in E. lia.
Qed.

Lemma Index_zero (s p : string) : Index s p = 0 <-> HasPrefix s p = true.
Proof.
  destruct s as [|c s]; simpl.
  - destruct (HasPrefix "" p); split; intros; try reflexivity; try discriminate; lia.
  - destruct (HasPrefix (String c s) p); [tauto |].
    pose proof (Index_lower s p).
    destruct (Index s p <? 0) eqn:E.
    + split; intros; [lia | discriminate].
    + apply Z.ltb_ge in E. split; intros; [lia | discriminate].
Qed.

(** A found index cuts the string around the first occurrence. *)
Lemma Index_found (s p : string) :
  0 <= Index s p ->
  exists a b, s = a +:+ p +:+ b /\ len a = Index s p.
Proof.
  induction s as [|c s IH]; simpl.
  - destruct (HasPrefix "" p) eqn:E; [| lia].
    intros _. apply HasPrefix_spec in E as [t Ht].
    exists "", t. split; [exact Ht | reflexivity].
  - destruct (HasPrefix (String c s) p) eqn:E.
    + intros _. apply HasPrefix_spec in E as [t Ht].
      exists "", t. split; [exact Ht | reflexivity].
    + destruct (Index s p <? 0) eqn:E'; [lia |].
      apply Z.ltb_ge in E'. intros _.
      destruct (IH E') as [a [b [-> Hlen]]].
      exists (String c a), b. split; [reflexivity |].
      unfold len in *. simpl. lia.
Qed.

(** No occurrence starts before the index [Index] returns. *)
Lemma Index_least (s p a b : string) :
  s = a +:+ p +:+ b -> 0 <= Index s p <= len a.
Proof.
  revert a. induction s as [|c s IH]; intros a Hs.
  - destruct a; [| discriminate]. simpl in Hs.
    assert (HasPrefix "" p = true) as E
      by (apply HasPrefix_spec; now exists b).
    simpl. rewrite E. unfold len; simpl; lia.
  - simpl. destruct (HasPrefix (String c s) p) eqn:E.
    + pose proof (len_nonneg a). lia.
    + destruct a as [|x a].
      * simpl in Hs.
        assert (HasPrefix (String c s) p = true)
          by (apply HasPrefix_spec; now exists b).
        congruence.
      * simpl in Hs. injection Hs as -> Hs.
        specialize (IH a Hs).
        destruct (Index s p <? 0) eqn:E'; [apply Z.ltb_lt in E'; lia |].
        unfold len in *. simpl. lia.
Qed.

Lemma Contains_spec (s p : string) :
  Contains s p = true <-> exists a b, s = a +:+ p +:+ b.
Proof.
  unfold Contains. rewrite Z.leb_le. split.
  - intros H. destruct (Index_found s p H) as [a [b [Hs _]]]. eauto.
  - intros [a [b Hs]]. apply (Index_least _ _ _ _ Hs).
Qed.

Lemma slice_from_append (a b : string) :
  slice_from (a +:+ b) (len a) = Ret b.
Proof.
  unfold slice_from.
  pose proof (len_nonneg a). pose proof (len_nonneg b).
  rewrite len_append.
  replace (0 <=? len a) with true by (symmetry; apply Z.leb_le; lia).
  replace (len a <=? len a + len b) with true
    by (symmetry; apply Z.leb_le; lia).
  simpl. unfold len. rewrite Nat2Z.id, drop_append. reflexivity.
Qed.

Lemma HasSuffix_spec (s p : string) :
  HasSuffix s p = true <-> exists a, s = a +:+ p.
Proof.
  unfold HasSuffix. rewrite andb_true_iff, Z.leb_le, String.eqb_eq. split.
  - intros [Hlen Hdrop].
    assert (forall n t, (n <= String.length t)%nat ->
              exists a, t = a +:+ drop n t) as Hcut.
    { induction n as [|n IHn]; intros t Ht.
      - exists "". now rewrite drop_0.
      - destruct t as [|c t]; simpl in Ht; [lia |].
        destruct (IHn t) as [a Ha]; [lia |].
        exists (String c a). simpl. now rewrite <- Ha. }
    destruct (Hcut (Z.to_nat (len s - len p)) s) as [a Ha].
    { unfold len in *. lia. }
    exists a. now rewrite <- Hdrop.
  - intros [a ->]. rewrite len_append. pose proof (len_nonneg a). split; [lia |].
    replace (len a + len p - len p) with (len a) by lia.
    unfold len. now rewrite Nat2Z.id, drop_append.
Qed.

Lemma Split_nonempty (s : string) (sep : ascii) : Split s sep <> [].
Proof.
  destruct s as [|c s]; simpl; [discriminate |].
  destruct (Ascii.eqb c sep); [discriminate |].
  destruct (Split s sep); discriminate.
Qed.

(** A single part is the whole string. *)
Lemma Split_single (s h : string) (sep : ascii) :
  Split s sep = [h] -> h = s.
Proof.
  revert h. induction s as [|c s IH]; intros h; simpl.
  - now intros [= <-].
  - destruct (Ascii.eqb c sep).
    + intros [= <- H]. now apply Split_nonempty in H.
    + destruct (Split s sep) as [|h' t] eqn:E.
      * now apply Split_nonempty in E.
      * intros [= <- ->]. now rewrite (IH h' eq_refl).
Qed.

(** A string that ends with the separator has an empty last part. *)
Lemma Split_last_sep (a : string) (sep : ascii) :
  List.last (Split (a +:+ String sep "") sep) "x" = "".
Proof.
  induction a as [|c a IH]; simpl.
  - now rewrite Ascii.eqb_refl.
  - destruct (Ascii.eqb c sep).
    + destruct (Split (a +:+ String sep "") sep) eqn:E; [| exact IH].
      now apply Split_nonempty in E.
    + destruct (Split (a +:+ String sep "") sep) as [|h t] eqn:E.
      * now apply Split_nonempty in E.
      * destruct t; [| exact IH]. simpl in IH. subst h.
        apply Split_single in E. now destruct a.
Qed.

End strings_facts.

(** ** [glob.Glob] decides glob matching *)

Module glob_facts.
Import strings strings_facts glob.
#[local] Arguments String.append !_ _ / : simpl nomatch.

Lemma match_rest_snoc (mid : list string) (last s : string) :
  match_rest (mid ++ [last]) s <-> match_mid mid last s.
Proof.
  revert s. induction mid as [|p mid IH]; intros s; simpl.
  - split.
    + intros [a [b [-> ->]]]. exists a. now rewrite append_nil_r.
    + intros [a ->]. exists a, "". now rewrite append_nil_r.
  - split; intros [a [b [-> H]]]; exists a, b; (split; [reflexivity |]);
      now apply IH.
Qed.

(** A match survives bytes added in front of the subject: the first
    star absorbs them. *)
Lemma match_mid_extend (mid : list string) (last c s : string) :
  match_mid mid last s -> match_mid mid last (c +:+ s).
Proof.
  destruct mid as [|p mid]; simpl.
  - intros [a ->]. exists (c +:+ a). now rewrite append_assoc.
  - intros [a [b [-> H]]]. exists (c +:+ a), b.
    split; [now rewrite append_assoc | exact H].
Qed.

Lemma glob_match_nil_inv (s : string) : glob_match "" s -> s = "".
Proof. now inversion 1. Qed.

(** The inductive meaning and the parts agree. *)
Lemma glob_match_parts (p s : string) :
  glob_match p s <-> match_parts (Split p GLOB_byte) s.
Proof.
  revert s. induction p as [|c p IH]; intros s.
  - simpl. split.
    + intros H. apply glob_match_nil_inv in H as ->. now exists "".
    + intros [b [-> ->]]. constructor.
  - simpl. destruct (Ascii.eqb c GLOB_byte) eqn:Ec.
    + apply Ascii.eqb_eq in Ec as ->. simpl.
      destruct (Split p GLOB_byte) as [|q0 qs] eqn:Eq;
        [now apply Split_nonempty in Eq |].
      split.
      * inversion 1 as [| p' a t Ht |]; subst.
        2: { match goal with Hc : _ <> _ |- _ => now elim Hc end. }
        apply IH in Ht as [b [-> Hb]].
        exists (a +:+ q0 +:+ b). split; [reflexivity |].
        simpl. exists a, b. now split.
      * intros [b [-> [a [b' [-> Hb']]]]].
        apply (match_star p a (q0 +:+ b')). apply IH. now exists b'.
    + apply Ascii.eqb_neq in Ec.
      destruct (Split p GLOB_byte) as [|q0 qs] eqn:Eq;
        [now apply Split_nonempty in Eq |].
      split.
      * inversion 1 as [| |c' p' s' Hc Hs]; subst; [now elim Ec |].
        apply IH in Hs as [b [-> Hb]]. exists b. now split.
      * intros [b [-> Hb]]. simpl. apply match_byte; [exact Ec |].
        apply IH. now exists b.
Qed.

(** The greedy loop over the middle parts ([i >= 1]) never panics; it
    rejects exactly the subjects in which the parts do not occur in
    order, and otherwise leaves the shortest possible rest. *)
Lemma leading_parts_mid (lg : bool) (mid : list string) :
  forall (i : nat) (subj : string),
    (exists subj',
        leading_parts lg (S i) mid subj = Ret (Some subj') /\
        forall last, match_mid mid last subj <-> exists a, subj' = a +:+ last)
    \/ (leading_parts lg (S i) mid subj = Ret None /\
        forall last, ~ match_mid mid last subj).
Proof.
  induction mid as [|p mid IH]; intros i subj.
  - left. exists subj. split; [reflexivity |]. intros last. reflexivity.
  - cbn [leading_parts].
    destruct (Index subj p <? 0) eqn:Eneg.
    + right. split; [reflexivity |].
      intros last [a [b [Hs _]]]. apply Z.ltb_lt in Eneg.
      pose proof (Index_least _ _ _ _ Hs). lia.
    + apply Z.ltb_ge in Eneg.
      destruct (Index_found subj p Eneg) as [a0 [subj1 [Hs Hlen]]].
      assert (slice_from subj (Index subj p + len p) = Ret subj1) as ->.
      { rewrite <- Hlen, <- len_append. rewrite Hs at 1.
        rewrite <- append_assoc. apply slice_from_append. }
      cbn [obind].
      assert (forall last a b, subj = a +:+ p +:+ b -> match_mid mid last b ->
                match_mid mid last subj1) as Hmono.
      { intros last a b Hs' Hb.
        pose proof (Index_least _ _ _ _ Hs') as Hle.
        rewrite Hs in Hs'. rewrite <- !append_assoc in Hs'.
        destruct (append_eq_append (a0 +:+ p) (a +:+ p) subj1 b Hs')
          as [c [_ ->]].
        { rewrite !length_append. unfold len in *. lia. }
        now apply match_mid_extend. }
      destruct (IH (S i) subj1) as [[subj' [-> Hspec]] | [-> Hnone]].
      * left. exists subj'. split; [reflexivity |]. intros last.
        rewrite <- Hspec. split.
        -- intros [a [b [Hs' Hb]]]. now apply (Hmono last a b).
        -- intros H. exists a0, subj1. now split.
      * right. split; [reflexivity |].
        intros last [a [b [Hs' Hb]]]. apply (Hnone last).
        now apply (Hmono last a b).
Qed.

(** A pattern that starts with a star has an empty first part. *)
Lemma Split_leading (pattern p0 : string) (parts : list string) :
  HasPrefix pattern GLOB = true ->
  Split pattern GLOB_byte = p0 :: parts -> p0 = "".
Proof.
  intros H. apply HasPrefix_spec in H as [t ->]. simpl.
  now intros [= <- _].
Qed.

(** A pattern that ends with a star has an empty last part. *)
Lemma Split_trailing (pattern : string) :
  HasSuffix pattern GLOB = true ->
  List.last (Split pattern GLOB_byte) "x" = "".
Proof.
  intros H. apply HasSuffix_spec in H as [a ->]. apply Split_last_sep.
Qed.

(** The first round of the loop ([i = 0]): the first part has to start
    the subject. *)
Lemma leading_parts_first_reject (lg : bool) (p0 : string)
    (mid : list string) (subj : string) :
  (lg = true -> p0 = "") ->
  HasPrefix subj p0 = false ->
  leading_parts lg 0 (p0 :: mid) subj = Ret None.
Proof.
  intros Hlg E. cbn [leading_parts].
  destruct lg; simpl.
  - rewrite (Hlg eq_refl) in E. discriminate.
  - destruct (Index subj p0 =? 0) eqn:E0; [| reflexivity].
    apply Z.eqb_eq, Index_zero in E0. congruence.
Qed.

Lemma leading_parts_first_accept (lg : bool) (p0 : string)
    (mid : list string) (subj1 : string) :
  leading_parts lg 0 (p0 :: mid) (p0 +:+ subj1)
  = leading_parts lg 1 mid subj1.
Proof.
  cbn [leading_parts].
  assert (Index (p0 +:+ subj1) p0 = 0) as ->.
  { apply Index_zero, HasPrefix_spec. now exists subj1. }
  rewrite andb_false_r. change (0 + len p0) with (len p0).
  now rewrite slice_from_append.
Qed.

(** The whole loop: the first part has to start the subject, the others
    are searched greedily. *)
Lemma leading_parts_first (lg : bool) (p0 : string) (mid : list string)
    (subj : string) :
  (lg = true -> p0 = "") ->
  (exists subj',
      leading_parts lg 0 (p0 :: mid) subj = Ret (Some subj') /\
      forall last,
        match_parts (p0 :: mid ++ [last]) subj <-> exists a, subj' = a +:+ last)
  \/ (leading_parts lg 0 (p0 :: mid) subj = Ret None /\
      forall last, ~ match_parts (p0 :: mid ++ [last]) subj).
Proof.
  intros Hlg.
  destruct (HasPrefix subj p0) eqn:E.
  - apply HasPrefix_spec in E as [subj1 ->].
    rewrite leading_parts_first_accept.
    assert (forall last,
              match_parts (p0 :: mid ++ [last]) (p0 +:+ subj1) <->
              match_mid mid last subj1) as Hfirst.
    { intros last. simpl. rewrite <- match_rest_snoc. split.
      - intros [b [Hb Hrest]].
        now apply (inj (String.app p0)) in Hb as ->.
      - intros H. now exists subj1. }
    destruct (leading_parts_mid lg mid 0 subj1)
      as [[subj' [-> Hspec]] | [-> Hnone]].
    + left. exists subj'. split; [reflexivity |]. intros last.
      now rewrite Hfirst.
    + right. split; [reflexivity |]. intros last. rewrite Hfirst.
      apply Hnone.
  - right. split; [now apply leading_parts_first_reject |].
    intros last [b [Hb _]].
    assert (HasPrefix subj p0 = true)
      by (apply HasPrefix_spec; now exists b).
    congruence.
Qed.

(** More than one part: the last one is split off. *)
Lemma parts_snoc (parts : list string) :
  (length parts =? 1)%nat = false -> parts <> [] ->
  exists p0 mid last,
    parts = p0 :: mid ++ [last] /\
    take (length parts - 1) parts = p0 :: mid /\
    nth (length parts - 1) parts "" = last /\
    List.last parts "x" = last.
Proof.
  intros Hlen Hne. apply Nat.eqb_neq in Hlen.
  destruct parts as [|p0 rest]; [congruence |].
  destruct (exists_last (l := rest)) as [mid [last ->]].
  { destruct rest; [simpl in Hlen; lia | discriminate]. }
  exists p0, mid, last. split; [reflexivity |].
  replace (length (p0 :: mid ++ [last]) - 1)%nat
    with (List.length (p0 :: mid))
    by (simpl; rewrite length_app; simpl; lia).
  change (p0 :: mid ++ [last]) with ((p0 :: mid) ++ [last])%list.
  split; [apply take_app_length |]. split.
  - rewrite app_nth2 by lia. now rewrite Nat.sub_diag.
  - apply last_last.
Qed.

(** [Glob] never panics, and it answers true exactly on the subjects the
    pattern matches. *)
Theorem Glob_decides (pattern subj : string) :
  exists b, Glob pattern subj = Ret b /\
            (b = true <-> glob_match pattern subj).
Proof.
  unfold Glob.
  destruct (String.eqb pattern "") eqn:E0.
  { apply String.eqb_eq in E0 as ->. eexists. split; [reflexivity |].
    rewrite String.eqb_eq. split.
    - intros ->. constructor.
    - apply glob_match_nil_inv. }
  destruct (String.eqb pattern GLOB) eqn:E1.
  { apply String.eqb_eq in E1 as ->. exists true. split; [reflexivity |].
    split; [intros _ | reflexivity].
    rewrite <- (append_nil_r subj). apply match_star. constructor. }
  enough (exists b,
            (if (length (Split pattern GLOB_byte) =? 1)%nat
             then Ret (String.eqb subj pattern)
             else
               obind
                 (leading_parts (HasPrefix pattern GLOB) 0
                    (take (length (Split pattern GLOB_byte) - 1)
                       (Split pattern GLOB_byte)) subj)
                 (fun r =>
                    match r with
                    | Some subj' =>
                        Ret (HasSuffix pattern GLOB
                             || HasSuffix subj'
                                  (nth (length (Split pattern GLOB_byte) - 1)
                                     (Split pattern GLOB_byte) ""))
                    | None => Ret false
                    end)) = Ret b /\
            (b = true <-> match_parts (Split pattern GLOB_byte) subj))
    as [b [Hb Hiff]].
  { exists b. split; [exact Hb | now rewrite glob_match_parts]. }
  destruct (length (Split pattern GLOB_byte) =? 1)%nat eqn:E2.
  { apply Nat.eqb_eq in E2.
    destruct (Split pattern GLOB_byte) as [|h [|? ?]] eqn:Es;
      try discriminate.
    apply Split_single in Es as ->. eexists. split; [reflexivity |].
    rewrite String.eqb_eq. simpl. split.
    - intros ->. exists "". now rewrite append_nil_r.
    - intros [b [-> ->]]. now rewrite append_nil_r. }
  destruct (parts_snoc _ E2 (Split_nonempty _ _))
    as [p0 [mid [last [Hparts [Htake [Hnth Hlast]]]]]].
  rewrite Htake, Hnth, Hparts.
  destruct (leading_parts_first (HasPrefix pattern GLOB) p0 mid subj)
    as [[subj' [-> Hspec]] | [-> Hnone]].
  { intros H. now apply (Split_leading pattern p0 (mid ++ [last])). }
  - cbn [obind]. eexists. split; [reflexivity |].
    rewrite Hspec, <- HasSuffix_spec.
    destruct (HasSuffix pattern GLOB) eqn:Et; [| reflexivity].
    apply Split_trailing in Et. rewrite Hlast in Et. rewrite Et.
    simpl. split; [intros _ | reflexivity].
    apply HasSuffix_spec. exists subj'. now rewrite append_nil_r.
  - cbn [obind]. exists false. split; [reflexivity |].
    split; [discriminate |]. intros H. now apply Hnone in H.
Qed.

End glob_facts.

(** ** The poll monad *)

Module poll_facts.
Local Open Scope M_scope.

Lemma push_all_nil (st : State) : push_all [] st = st.
Proof. destruct st. unfold push_all. simpl. now rewrite app_nil_r. Qed.

Lemma push_all_app (ms1 ms2 : list prometheus.Metric) (st : State) :
  push_all ms2 (push_all ms1 st) = push_all (ms1 ++ ms2) st.
Proof. unfold push_all. simpl. now rewrite app_assoc. Qed.



Lemma sends_lift {A} (fq : string) (a : A) : sends fq (lift (Ret a)) a [].
Proof. intros st. exists []. now rewrite push_all_nil. Qed.





End poll_facts.

(** ** The resolver *)

Module resolver_facts.
Local Open Scope M_scope.

Section Client.
Variable client : github.Client.

(** With fuel for every round, the loop makes the requests of the run
    and returns what the run ends with, after the repositories it
    already holds. *)
Lemma search_loop_run (owner : string) (opts : github.SearchOptions)
    (cs : list github.Call)
    (res : goresult (list (option github.Repository.t))) :
  search_run client owner opts cs res ->
  forall fuel repos st,
    (length cs <= fuel)%nat ->
    search_loop client fuel owner opts repos st
    = (Ret (prepend repos res), add_calls cs st).
Proof.
  induction 1 as [opts err E | opts result resp E Hz
                 | opts result resp cs res E Hnz Hrun IH];
    intros fuel repos st Hfuel;
    (destruct fuel as [|fuel]; [simpl in Hfuel; lia |]);
    cbn [search_loop]; unfold bind, call; rewrite E.
  - reflexivity.
  - rewrite Hz. reflexivity.
  - destruct (github.NextPage resp =? 0) eqn:Ez;
      [apply Z.eqb_eq in Ez; contradiction |].
    fold (next_page opts resp). rewrite IH by (simpl in Hfuel; lia).
    f_equal.
    + destruct res; simpl; [now rewrite app_assoc | reflexivity].
    + unfold add_calls. simpl. now rewrite <- app_assoc.
Qed.

(** The rounds of a run: every response but the last one names a next
    page, and a run that ends well ends on a response without one. *)
Lemma search_run_rounds (owner : string) (opts : github.SearchOptions)
    (cs : list github.Call)
    (res : goresult (list (option github.Repository.t))) :
  search_run client owner opts cs res ->
  exists front final,
    cs = (front ++ [final])%list /\
    Forall (fun c => exists n, answered_next client c = Some n /\ n <> 0)
      front /\
    (forall all, res = GoOk all -> answered_next client final = Some 0) /\
    (forall err, res = GoErr err -> answered_next client final = None).
Proof.
  induction 1 as [opts err E | opts result resp E Hz
                 | opts result resp cs res E Hnz Hrun IH].
  - exists [], (github.CallSearch ("user:" +:+ owner) opts).
    split; [reflexivity |]. split; [constructor |].
    split; [discriminate |]. intros _ _. simpl. now rewrite E.
  - exists [], (github.CallSearch ("user:" +:+ owner) opts).
    split; [reflexivity |]. split; [constructor |].
    split; [| discriminate]. intros _ _. simpl. now rewrite E, Hz.
  - destruct IH as [front [final [-> [Hfront [Hok Herr]]]]].
    exists (github.CallSearch ("user:" +:+ owner) opts :: front), final.
    split; [reflexivity |]. split; [| split].
    + constructor; [| exact Hfront].
      exists (github.NextPage resp). simpl. now rewrite E.
    + intros all Hall. destruct res as [rest|]; [| discriminate].
      now apply (Hok rest).
    + intros err Herr'. destruct res as [|err0]; [discriminate |].
      now apply (Herr err0).
Qed.

(** Without a star the resolver makes one request, the direct fetch. *)
Lemma reposByOwnerAndName_direct (fuel : nat) (owner repo : string)
    (st : State) :
  strings.Contains repo "*" = false ->
  reposByOwnerAndName client fuel owner repo st
  = (Ret match github.Repositories_Get client owner repo with
         | GoOk res => GoOk [Some res]
         | GoErr err => GoErr err
         end,
     add_calls [github.CallGet owner repo] st).
Proof.
  intros Hstar. unfold reposByOwnerAndName. rewrite Hstar.
  unfold bind, call.
  now destruct (github.Repositories_Get client owner repo).
Qed.

(** With a star the resolver runs the search from the first page. *)
Lemma reposByOwnerAndName_search (fuel : nat) (owner repo : string)
    (cs : list github.Call)
    (res : goresult (list (option github.Repository.t))) (st : State) :
  strings.Contains repo "*" = true ->
  search_run client owner first_page cs res ->
  (length cs <= fuel)%nat ->
  reposByOwnerAndName client fuel owner repo st
  = (Ret res, add_calls cs st).
Proof.
  intros Hstar Hrun Hfuel. unfold reposByOwnerAndName. rewrite Hstar.
  fold first_page. rewrite (search_loop_run owner _ cs res Hrun) by exact Hfuel.
  now destruct res.
Qed.

End Client.

End resolver_facts.

(** ** The failure policy of the collectors *)

Module policy_facts.

(** A round that ends normally hands the loop on to the next element. *)
Lemma range_from_step {A} (i : nat) (x : A) (xs : list A)
    (body : nat -> A -> M unit) (st st' : State) :
  body i x st = (Ret tt, st') ->
  range_from i (x :: xs) body st = range_from (S i) xs body st'.
Proof. intros H. cbn [range_from]. unfold bind. now rewrite H. Qed.

(** An entry that does not split in two takes the last branch of the
    [match] in each [collect_target]. *)
Ltac malformed name H :=
  let parts := fresh "parts" in
  destruct (strings.Split name "/") as [|? [|? [|? parts]]];
  [reflexivity | reflexivity | now elim H | reflexivity].

Lemma repo_malformed (c : repo.RepoCollector) (fuel : nat) (name : string)
    (st : State) :
  length (strings.Split name "/") <> 2%nat ->
  repo.collect_target c fuel name st
  = (Ret tt, count_failure "repo" (invalid_name (repo.logger c) name) st).
Proof. intros H. unfold repo.collect_target. malformed name H. Qed.

Lemma issue_malformed (c : issue.IssueCollector) (name : string)
    (st : State) :
  length (strings.Split name "/") <> 2%nat ->
  issue.collect_target c name st
  = (Ret tt, count_failure "repo" (invalid_name (issue.logger c) name) st).
Proof. intros H. unfold issue.collect_target. malformed name H. Qed.

Lemma issues_go_malformed (c : issues_go.IssueCollector) (name : string)
    (st : State) :
  length (strings.Split name "/") <> 2%nat ->
  issues_go.collect_target c name st
  = (Ret tt,
     count_failure "repo" (invalid_name (issues_go.logger c) name) st).
Proof. intros H. unfold issues_go.collect_target. malformed name H. Qed.

Lemma pull_request_malformed (c : pull_request.PullRequestCollector)
    (name : string) (st : State) :
  length (strings.Split name "/") <> 2%nat ->
  pull_request.collect_target c name st
  = (Ret tt,
     count_failure "repo" (invalid_name (pull_request.logger c) name) st).
Proof. intros H. unfold pull_request.collect_target. malformed name H. Qed.

(** What one counted failure does to the state. *)
Lemma count_failure_effect (lv : string) (l : LogLine) (st : State) :
  failures (count_failure lv l st) !! lv
  = Some (default 0%nat (failures st !! lv) + 1)%nat /\
  (forall lv', lv' <> lv ->
     failures (count_failure lv l st) !! lv' = failures st !! lv') /\
  ch (count_failure lv l st) = ch st /\
  calls (count_failure lv l st) = calls st.
Proof.
  unfold count_failure; simpl. split; [apply lookup_insert_eq |].
  split; [| split; reflexivity].
  intros lv' Hne. now apply lookup_insert_ne.
Qed.

End policy_facts.

(** ** Failed fetches *)

Module fetch_facts.
Import policy_facts resolver_facts.

Lemma goes_on_intro {A} (body : nat -> A -> M unit) (i : nat) (x : A)
    (st st' : State) :
  body i x st = (Ret tt, st') -> goes_on body i x st st'.
Proof. intros H. split; [exact H |]. intros xs. now apply range_from_step. Qed.

Lemma one_failure_count (lv : string) (l : LogLine) (st : State) :
  one_failure_no_sample lv st (count_failure lv l st).
Proof.
  destruct (count_failure_effect lv l st) as [H1 [H2 [H3 _]]].
  now repeat split.
Qed.






(** The repository collector, given what its resolver returns. *)
Lemma repo_resolved (c : repo.RepoCollector) (fuel : nat)
    (name owner repo : string) (cs : list github.Call)
    (res : goresult (list (option github.Repository.t))) (st : State) :
  strings.Split name "/" = [owner; repo] ->
  reposByOwnerAndName (repo.client c) fuel owner repo st
  = (Ret res, add_calls cs st) ->
  repo.collect_target c fuel name st
  = match res with
    | GoErr _ =>
        (Ret tt,
         count_failure "repo" (failed_repos (repo.logger c) name)
           (observed "repo" (add_calls cs st)))
    | GoOk records =>
        range records (repo.collect_record c name owner)
          (observed "repo" (add_calls cs st))
    end.
Proof.
  intros Hsplit Hres.
  unfold repo.collect_target, repo.reposByOwnerAndName, bind.
  rewrite Hsplit, Hres. now destruct res.
Qed.



End fetch_facts.

(** ** Pagination *)

Module pagination_facts.

(** A run that ends well delivers the pages of its rounds, in order. *)
Lemma search_run_pages (client : github.Client) (owner : string)
    (opts : github.SearchOptions) (cs : list github.Call)
    (res : goresult (list (option github.Repository.t))) :
  search_run client owner opts cs res ->
  forall all, res = GoOk all ->
  all = concat (map (answered_repos client) cs).
Proof.
  induction 1 as [opts err E | opts result resp E Hz
                 | opts result resp cs res E Hnz Hrun IH]; intros all Hall.
  - discriminate.
  - injection Hall as <-. simpl. rewrite E. now rewrite app_nil_r.
  - destruct res as [rest|]; [| discriminate].
    injection Hall as <-. simpl. rewrite E. now rewrite (IH rest eq_refl).
Qed.

(** Against an API that never stops naming a next page the loop does not
    end: no fuel is enough. *)
Lemma search_loop_endless (owner : string) (fuel : nat) :
  forall opts repos st,
    fst (search_loop endless fuel owner opts repos st) = Diverge.
Proof.
  induction fuel as [|fuel IH]; intros opts repos st; [reflexivity |].
  cbn [search_loop]. unfold bind, call. cbn. apply IH.
Qed.

(** The run of the search for [acme]. *)
Lemma acme_run : search_run acme "acme" first_page acme_calls (GoOk acme_repos).
Proof.
  apply (run_next acme "acme" first_page
           {| github.Repositories :=
                [Some (acme_repo "auth-service"); Some (acme_repo "web")] |}
           {| github.NextPage := 2 |}
           [github.CallSearch "user:acme" second_page]
           (GoOk [Some (acme_repo "pay-service")])).
  - reflexivity.
  - discriminate.
  - apply (run_last acme "acme" second_page
             {| github.Repositories := [Some (acme_repo "pay-service")] |}
             {| github.NextPage := 0 |}); reflexivity.
Defined.

End pagination_facts.

(** ** The samples of the repository collector *)

Module repo_facts.
Import poll_facts.










End repo_facts.

(** ** Label values *)

Module label_facts.

Lemma login_or_empty_spec (u : option github.User.t) :
  login_or_empty u = string_or_empty (login u).
Proof. now destruct u. Qed.

Lemma first_label_spec (labels : list (option github.Label.t))
    (label : string) :
  first_label labels = Ret label ->
  label = string_or_empty (first_label_name labels).
Proof.
  destruct labels as [|[l|] rest]; simpl.
  - now intros [= <-].
  - now intros [= <-].
  - discriminate.
Qed.


(** The label values of an issue (src/unnamed/part_001). *)
Lemma issue_all_labels (client : github.Client) (cfg : config.Target)
    (r : github.Issue.t) (ls : list string) :
  issue.all_labels r = Ret ls ->
  length ls
  = length (prometheus.variableLabels (issue.All (issue.make client cfg))) /\
  renders (prometheus.variableLabels (issue.All (issue.make client cfg))) ls
    (issue_text_fields r).
Proof.
  unfold issue.all_labels.
  destruct (label_names (github.Issue.Labels r)) as [names| |];
    cbn [obind]; try discriminate.
  destruct (first_label (github.Issue.Labels r)) as [label| |] eqn:El;
    cbn [obind]; try discriminate.
  apply first_label_spec in El as ->.
  destruct (github.Issue.Reactions r) as [reactions|];
    cbn [obind deref]; try discriminate.
  intros [= <-]. rewrite !login_or_empty_spec.
  split; [reflexivity |]. repeat constructor.
Qed.


(** The label values of a pull request. *)
Lemma pull_request_all_labels (client : github.Client) (cfg : config.Target)
    (r : github.PullRequest.t) (ls : list string) :
  pull_request.all_labels r = Ret ls ->
  length ls
  = length (prometheus.variableLabels
              (pull_request.All (pull_request.make client cfg))) /\
  renders
    (prometheus.variableLabels
       (pull_request.All (pull_request.make client cfg)))
    ls (pull_request_text_fields r) /\
  prometheus.lookup_label
    (prometheus.variableLabels
       (pull_request.All (pull_request.make client cfg))) ls "assignees"
  = Some "" /\
  prometheus.lookup_label
    (prometheus.variableLabels
       (pull_request.All (pull_request.make client cfg))) ls
    "requested_reviewers"
  = Some "".
Proof.
  unfold pull_request.all_labels.
  destruct (label_names (github.PullRequest.Labels r)) as [names| |];
    cbn [obind]; try discriminate.
  destruct (first_label (github.PullRequest.Labels r)) as [label| |] eqn:El;
    cbn [obind]; try discriminate.
  apply first_label_spec in El as ->.
  intros [= <-]. rewrite !login_or_empty_spec.
  split; [reflexivity |]. split; [| split; reflexivity].
  repeat constructor; cbn [fst snd];
    try (destruct (github.PullRequest.State r); reflexivity);
    try (destruct (github.PullRequest.Title r); reflexivity).
Qed.

End label_facts.

(** ** What a poll can send *)

Module invariant_facts.
Local Open Scope M_scope.

Section Samples.
Variable Q : prometheus.Metric -> Prop.

Lemma extends_refl (st : State) : extends_with Q st st.
Proof. exists []. split; [now rewrite app_nil_r | constructor]. Qed.

Lemma extends_same_ch (st st' : State) :
  ch st' = ch st -> extends_with Q st st'.
Proof. intros H. exists []. split; [now rewrite app_nil_r | constructor]. Qed.

Lemma extends_trans (st1 st2 st3 : State) :
  extends_with Q st1 st2 -> extends_with Q st2 st3 -> extends_with Q st1 st3.
Proof.
  intros [ms1 [E1 F1]] [ms2 [E2 F2]]. exists (ms1 ++ ms2). split.
  - now rewrite E2, E1, app_assoc.
  - apply Forall_app. now split.
Qed.

Lemma only_sends_ret {A} (a : A) : only_sends Q (ret a).
Proof. intros st o st' [= _ <-]. apply extends_refl. Qed.


Lemma only_sends_bind {A B} (m : M A) (k : A -> M B) :
  only_sends Q m -> (forall a, only_sends Q (k a)) ->
  only_sends Q (bind m k).
Proof.
  intros Hm Hk st o st' H. unfold bind in H.
  destruct (m st) as [[a|msg|] st1] eqn:E; apply Hm in E.
  - apply Hk in H. now apply (extends_trans st st1 st').
  - now injection H as _ <-.
  - now injection H as _ <-.
Qed.

Lemma only_sends_emit (d : prometheus.Desc) (v : float64) (ls : list string) :
  (length ls = length (prometheus.variableLabels d) ->
   Q {| prometheus.desc := d; prometheus.value := v;
        prometheus.labelValues := ls |}) ->
  only_sends Q (emit d v ls).
Proof.
  intros HQ st o st'.
  unfold emit, bind, lift, send, prometheus.MustNewConstMetric.
  destruct (length ls =? length (prometheus.variableLabels d))%nat eqn:E.
  - intros [= _ <-]. apply Nat.eqb_eq in E.
    eexists. split; [reflexivity |]. constructor; [now apply HQ | constructor].
  - intros [= _ <-]. apply extends_refl.
Qed.


Lemma only_sends_range_from {A} (xs : list A) (body : nat -> A -> M unit) :
  (forall i x, only_sends Q (body i x)) ->
  forall i, only_sends Q (range_from i xs body).
Proof.
  intros Hbody. induction xs as [|x xs IH]; intros i; cbn [range_from].
  - apply only_sends_ret.
  - apply only_sends_bind; [apply Hbody | intros _; apply IH].
Qed.

Lemma only_sends_range {A} (xs : list A) (body : nat -> A -> M unit) :
  (forall i x, only_sends Q (body i x)) -> only_sends Q (range xs body).
Proof. intros H. now apply only_sends_range_from. Qed.

Lemma only_sends_failures_Inc (lv : string) : only_sends Q (failures_Inc lv).
Proof. intros st o st' [= _ <-]. now apply extends_same_ch. Qed.

Lemma only_sends_Log (l : LogLine) : only_sends Q (Log l).
Proof. intros st o st' [= _ <-]. now apply extends_same_ch. Qed.


Lemma only_sends_call {A} (c : github.Call) (answer : goresult A) :
  only_sends Q (call c answer).
Proof. intros st o st' [= _ <-]. now apply extends_same_ch. Qed.

Lemma only_sends_failure (l : LogLine) (lv : string) :
  only_sends Q (Log l ;;; failures_Inc lv).
Proof.
  apply only_sends_bind; [apply only_sends_Log |].
  intros _. apply only_sends_failures_Inc.
Qed.



End Samples.







End invariant_facts.

(** ** The samples of the issue and pull request collectors *)

Module sample_facts.
Import invariant_facts.
Local Open Scope M_scope.

(** The continuation of a pure step sees the value the step returned; a
    step that panics sends nothing. *)
Lemma only_sends_bind_lift {A B} (Q : prometheus.Metric -> Prop)
    (o : outcome A) (k : A -> M B) :
  (forall a, o = Ret a -> only_sends Q (k a)) ->
  only_sends Q (bind (lift o) k).
Proof.
  intros Hk. destruct o as [a|msg|].
  - intros st o' st' H. exact (Hk a eq_refl st o' st' H).
  - intros st o' st' [= _ <-]. apply extends_refl.
  - intros st o' st' [= _ <-]. apply extends_refl.
Qed.

(** A record whose label values can be built gets its sample. *)
Lemma emit_sends (d : prometheus.Desc) (v : float64) (ls : list string)
    (st : State) :
  length ls = length (prometheus.variableLabels d) ->
  emit d v ls st
  = (Ret tt,
     push_all [{| prometheus.desc := d; prometheus.value := v;
                  prometheus.labelValues := ls |}] st).
Proof.
  intros H. unfold emit, bind, lift, prometheus.MustNewConstMetric.
  now rewrite H, Nat.eqb_refl.
Qed.

Lemma pull_request_Collect_no_user_lists (client : github.Client)
    (cfg : config.Target) :
  only_sends no_user_lists
    (pull_request.Collect (pull_request.make client cfg)).
Proof.
  apply only_sends_range. intros _ name. unfold pull_request.collect_target.
  destruct (strings.Split name "/") as [|owner [|repo [|]]];
    try apply only_sends_failure.
  apply only_sends_bind; [apply only_sends_call |].
  intros [records|err]; [| apply only_sends_failure].
  apply only_sends_range. intros i [r|]; cbn [pull_request.collect_record];
    [| apply only_sends_ret].
  apply only_sends_bind_lift. intros ls Hls.
  apply only_sends_emit. intros _.
  destruct (label_facts.pull_request_all_labels client cfg r ls Hls)
    as [_ [_ [Ha Hr]]].
  split; assumption.
Qed.

End sample_facts.

(** ** Fields that are dereferenced without a check *)

Module panic_facts.

(** The loop over the labels ends or panics on a nameless label. *)
Lemma label_names_outcome (labels : list (option github.Label.t)) :
  (exists ns, label_names labels = Ret ns)
  \/ label_names labels = Panic nil_deref.
Proof.
  induction labels as [|[l|] rest IH]; cbn [label_names].
  - left. now exists [].
  - destruct (github.Label.Name l) as [n|]; cbn [deref obind];
      [| now right].
    destruct IH as [[ns ->] | ->]; cbn [obind]; [left; now eexists | now right].
  - exact IH.
Qed.

Lemma first_label_outcome (labels : list (option github.Label.t)) :
  (exists l, first_label labels = Ret l)
  \/ first_label labels = Panic nil_deref.
Proof.
  destruct labels as [|[l|] rest]; cbn [first_label deref obind].
  - left. now eexists.
  - left. now eexists.
  - now right.
Qed.

(** An issue without the reactions object makes the issue collector
    panic, whatever its other fields are. *)
Lemma issue_without_reactions_panics (c : issue.IssueCollector) (i : nat)
    (r : github.Issue.t) (st : State) :
  github.Issue.Reactions r = None ->
  issue.collect_record c i (Some r) st = (Panic nil_deref, st).
Proof.
  intros Hr. cbn [issue.collect_record]. unfold bind, lift, issue.all_labels.
  destruct (label_names_outcome (github.Issue.Labels r)) as [[ns ->] | ->];
    cbn [obind]; [| reflexivity].
  destruct (first_label_outcome (github.Issue.Labels r)) as [[l ->] | ->];
    cbn [obind]; [| reflexivity].
  now rewrite Hr.
Qed.

(** A repository record without a full name makes the repository
    collector panic. *)
Lemma repo_without_full_name_panics (c : repo.RepoCollector)
    (name owner : string) (i : nat) (r : github.Repository.t) (st : State) :
  github.Repository.FullName r = None ->
  repo.collect_record c name owner i (Some r) st = (Panic nil_deref, st).
Proof.
  intros Hf. unfold repo.collect_record, bind, lift. cbn [deref].
  now rewrite Hf.
Qed.

End panic_facts.

(** ** The requests of the issue and pull request collectors *)

Module request_facts.
Local Open Scope M_scope.

Lemma requests_ret {A} (a : A) : requests (ret a) [].
Proof. intros st o st' [= _ <-]. now rewrite app_nil_r. Qed.

Lemma requests_lift {A} (o : outcome A) : requests (lift o) [].
Proof. intros st o' st' [= _ <-]. now rewrite app_nil_r. Qed.

Lemma requests_bind_nil {A B} (m : M A) (k : A -> M B) :
  requests m [] -> (forall a, requests (k a) []) -> requests (bind m k) [].
Proof.
  intros Hm Hk st o st' H. unfold bind in H.
  destruct (m st) as [[a|msg|] st1] eqn:E; apply Hm in E;
    rewrite app_nil_r in E.
  - apply Hk in H. now rewrite <- E.
  - injection H as _ <-. now rewrite app_nil_r.
  - injection H as _ <-. now rewrite app_nil_r.
Qed.

Lemma requests_emit (d : prometheus.Desc) (v : float64) (ls : list string) :
  requests (emit d v ls) [].
Proof.
  intros st o st'. unfold emit, bind, lift, send.
  destruct (prometheus.MustNewConstMetric d v ls);
    intros [= _ <-]; simpl; now rewrite app_nil_r.
Qed.

Lemma requests_failure (l : LogLine) (lv : string) :
  requests (Log l ;;; failures_Inc lv) [].
Proof. intros st o st' [= _ <-]. simpl. now rewrite app_nil_r. Qed.

Lemma requests_range {A} (xs : list A) (body : nat -> A -> M unit) :
  (forall i x, requests (body i x) []) -> requests (range xs body) [].
Proof.
  intros Hbody. unfold range. generalize 0%nat.
  induction xs as [|x xs IH]; intros i; cbn [range_from].
  - apply requests_ret.
  - apply requests_bind_nil; [apply Hbody | intros _; apply IH].
Qed.

(** A list call followed by steps that make no request. *)
Lemma requests_call_then {A B} (c : github.Call) (answer : goresult A)
    (k : goresult A -> M B) :
  (forall r, requests (k r) []) -> requests (bind (call c answer) k) [c].
Proof.
  intros Hk st o st' H. unfold bind, call in H.
  apply Hk in H. rewrite app_nil_r in H. exact H.
Qed.

(** The issue collector lists the issues of the name as it is written in
    the target, and makes no other request. *)
Lemma issues_go_requests (c : issues_go.IssueCollector)
    (name owner repo : string) :
  strings.Split name "/" = [owner; repo] ->
  requests (issues_go.collect_target c name)
    [github.CallIssuesList owner repo].
Proof.
  intros Hsplit. unfold issues_go.collect_target. rewrite Hsplit.
  apply requests_call_then. intros [issues|err]; [| apply requests_failure].
  apply requests_range. intros i record. unfold issues_go.collect_record.
  apply requests_bind_nil; [apply requests_lift |].
  intros ls. apply requests_emit.
Qed.

Lemma issue_requests (c : issue.IssueCollector) (name owner repo : string) :
  strings.Split name "/" = [owner; repo] ->
  requests (issue.collect_target c name) [github.CallIssuesList owner repo].
Proof.
  intros Hsplit. unfold issue.collect_target. rewrite Hsplit.
  apply requests_call_then. intros [issues|err]; [| apply requests_failure].
  apply requests_range. intros i [r|]; cbn [issue.collect_record];
    [| apply requests_ret].
  apply requests_bind_nil; [apply requests_lift |].
  intros ls. apply requests_emit.
Qed.

Lemma pull_request_requests (c : pull_request.PullRequestCollector)
    (name owner repo : string) :
  strings.Split name "/" = [owner; repo] ->
  requests (pull_request.collect_target c name)
    [github.CallPullsList owner repo].
Proof.
  intros Hsplit. unfold pull_request.collect_target. rewrite Hsplit.
  apply requests_call_then. intros [prs|err]; [| apply requests_failure].
  apply requests_range. intros i [r|]; cbn [pull_request.collect_record];
    [| apply requests_ret].
  apply requests_bind_nil; [apply requests_lift |].
  intros ls. apply requests_emit.
Qed.

End request_facts.

(** ** Configured entries *)

Module target_facts.
Import strings strings_facts.
#[local] Arguments String.append !_ _ / : simpl nomatch.

(** A one-byte substring occurs in a string when it is its first byte or
    occurs in the rest. *)
Lemma Contains_byte_cons (d c : ascii) (s : string) :
  Contains (String d s) (String c "")
  = Ascii.eqb d c || Contains s (String c "").
Proof.
  unfold Contains. cbn [Index HasPrefix].
  destruct (Ascii.eqb d c); [reflexivity |]. cbn [andb orb].
  pose proof (Index_lower s (String c "")) as Hlow.
  destruct (Index s (String c "") <? 0) eqn:E.
  - apply Z.ltb_lt in E. symmetry. apply Z.leb_gt. lia.
  - apply Z.ltb_ge in E.
    transitivity true; [| symmetry]; apply Z.leb_le; lia.
Qed.

Lemma Contains_byte_nil (c : ascii) : Contains "" (String c "") = false.
Proof. reflexivity. Qed.

(** The first part has no separator, and the string is the first part,
    a separator and what the other parts are split from. *)
Lemma Split_cons_inv (c : ascii) (s a : string) (rest : list string) :
  Split s c = a :: rest ->
  Contains a (String c "") = false /\
  match rest with
  | [] => s = a
  | _ => exists b, s = a +:+ String c b /\ Split b c = rest
  end.
Proof.
  revert a rest. induction s as [|d s IH]; intros a rest; simpl.
  - intros [= <- <-]. split; reflexivity.
  - destruct (Ascii.eqb d c) eqn:Ed.
    + apply Ascii.eqb_eq in Ed as ->. intros [= <- <-].
      split; [reflexivity |].
      destruct (Split s c) eqn:Es; [now apply Split_nonempty in Es |].
      exists s. split; [reflexivity | exact Es].
    + destruct (Split s c) as [|h t] eqn:Es;
        [now apply Split_nonempty in Es |].
      intros [= <- <-]. destruct (IH h t eq_refl) as [Hh Hrest].
      split; [now rewrite Contains_byte_cons, Ed, Hh |].
      destruct t as [|t0 t].
      * now rewrite Hrest.
      * destruct Hrest as [b [-> Hb]]. exists b. split; [reflexivity | exact Hb].
Qed.

Lemma Split_no_sep (c : ascii) (s : string) :
  Contains s (String c "") = false -> Split s c = [s].
Proof.
  induction s as [|d s IH]; [reflexivity |].
  rewrite Contains_byte_cons. intros [Hd Hs]%orb_false_iff.
  simpl. now rewrite Hd, (IH Hs).
Qed.

Lemma Split_app_sep (c : ascii) (a b : string) :
  Contains a (String c "") = false ->
  Split (a +:+ String c b) c = a :: Split b c.
Proof.
  induction a as [|d a IH].
  - intros _. simpl. now rewrite Ascii.eqb_refl.
  - rewrite Contains_byte_cons. intros [Hd Ha]%orb_false_iff.
    simpl. now rewrite Hd, (IH Ha).
Qed.

(** Exactly two parts: one separator, with the parts around it. *)
Lemma Split_two (c : ascii) (s a b : string) :
  Split s c = [a; b] <->
  s = a +:+ String c b /\
  Contains a (String c "") = false /\ Contains b (String c "") = false.
Proof.
  split.
  - intros H. destruct (Split_cons_inv c s a [b] H) as [Ha [b' [-> Hb']]].
    pose proof (Split_single _ _ _ Hb') as ->.
    destruct (Split_cons_inv c b' b' [] Hb') as [Hb _]. now repeat split.
  - intros [-> [Ha Hb]]. now rewrite Split_app_sep, Split_no_sep.
Qed.

End target_facts.

(** ** Label values of numbers and booleans *)

Module render_facts.

(** The decimal rendering can be read back. *)
Lemma Sprint_read (n : Z) :
  NilZero.int_of_string (Sprint n) = Some (Z.to_int n).
Proof.
  unfold Sprint. apply NilZero.isi; destruct n; try discriminate;
    simpl; intros [= H]; now apply DecimalPos.Unsigned.to_uint_nonnil in H.
Qed.

Lemma Sprint_inj (n m : Z) : Sprint n = Sprint m -> n = m.
Proof.
  intros H. apply DecimalZ.to_int_inj.
  pose proof (Sprint_read n) as Hn. rewrite H, Sprint_read in Hn.
  now injection Hn.
Qed.

Lemma Sprint_nonempty (n : Z) : Sprint n <> "".
Proof.
  intros H. pose proof (Sprint_read n) as Hn. rewrite H in Hn. discriminate.
Qed.

Lemma string_int_or_empty_inj (p q : option Z) :
  string_int_or_empty p = string_int_or_empty q -> p = q.
Proof.
  destruct p as [n|], q as [m|]; simpl; intros H.
  - now rewrite (Sprint_inj n m H).
  - now apply Sprint_nonempty in H.
  - symmetry in H. now apply Sprint_nonempty in H.
  - reflexivity.
Qed.

End render_facts.

(** ** Descriptors *)

Module describe_facts.
Import invariant_facts.
Local Open Scope M_scope.






End describe_facts.

(** ** The resolver's effects *)

Module resolver_frame.
Local Open Scope M_scope.

Lemma search_loop_only_requests (client : github.Client)
    (owner repo : string) (fuel : nat) :
  forall page repos,
    only_requests (resolver_request owner repo)
      (search_loop client fuel owner
         {| github.SearchOptions_ListOptions :=
              {| github.Page := page; github.PerPage := 50 |} |} repos).
Proof.
  induction fuel as [|fuel IH]; intros page repos st o st'.
  - intros [= _ <-]. do 4 (split; [reflexivity |]).
    exists []. split; [now rewrite app_nil_r | constructor].
  - cbn [search_loop]. unfold bind, call.
    set (opts := {| github.SearchOptions_ListOptions :=
                      {| github.Page := page; github.PerPage := 50 |} |}).
    assert (resolver_request owner repo
              (github.CallSearch ("user:" +:+ owner) opts)) as Hreq
      by (right; now exists page).
    destruct (github.Search_Repositories client ("user:" +:+ owner) opts)
      as [[result resp]|err].
    + destruct (github.NextPage resp =? 0).
      * intros [= _ <-]. do 4 (split; [reflexivity |]).
        exists [github.CallSearch ("user:" +:+ owner) opts].
        split; [reflexivity | now constructor].
      * intros H. apply IH in H. cbn in H.
        destruct H as (Hf & Hc & Hd & Hl & cs & Hcs & HQ).
        do 4 (split; [assumption |]).
        exists (github.CallSearch ("user:" +:+ owner) opts :: cs).
        split; [now rewrite Hcs, <- app_assoc | now constructor].
    + intros [= _ <-]. do 4 (split; [reflexivity |]).
      exists [github.CallSearch ("user:" +:+ owner) opts].
      split; [reflexivity | now constructor].
Qed.

Lemma reposByOwnerAndName_only_requests (client : github.Client)
    (fuel : nat) (owner repo : string) :
  only_requests (resolver_request owner repo)
    (reposByOwnerAndName client fuel owner repo).
Proof.
  unfold reposByOwnerAndName. destruct (strings.Contains repo "*").
  - apply search_loop_only_requests.
  - intros st o st'. unfold bind, call.
    destruct (github.Repositories_Get client owner repo);
      intros [= _ <-]; do 4 (split; [reflexivity |]);
      exists [github.CallGet owner repo];
      (split; [reflexivity |]); (constructor; [now left | constructor]).
Qed.


End resolver_frame.

(** ** The constructors *)

Module constructor_facts.


End constructor_facts.

(** ** Whole polls of the issue collector *)

Module issue_poll_facts.
Import poll_facts.
Local Open Scope M_scope.

Lemma emits_ret : emits (ret tt) [].
Proof. intros st. now rewrite push_all_nil. Qed.


(** The loop over the labels gets through exactly the lists whose labels
    all have names. *)
Lemma label_names_Ret (labels : list (option github.Label.t)) :
  (exists ns, label_names labels = Ret ns) <-> labels_named labels.
Proof.
  unfold labels_named. induction labels as [|[l|] rest IH];
    cbn [label_names].
  - split; [constructor | now exists []].
  - destruct (github.Label.Name l) as [n|] eqn:En; cbn [deref obind].
    + split.
      * intros [ns H]. constructor; [now rewrite En |].
        apply IH. destruct (label_names rest); try discriminate. now eexists.
      * intros [_ Hrest]%Forall_cons. apply IH in Hrest as [ns ->].
        now eexists.
    + split; [intros [ns H]; discriminate |].
      intros [[n Hn] _]%Forall_cons. rewrite En in Hn. discriminate.
  - rewrite IH. split; [now constructor | now intros [_ H]%Forall_cons].
Qed.

Lemma first_label_Ret (labels : list (option github.Label.t)) :
  (exists l, first_label labels = Ret l) <-> first_present labels.
Proof.
  destruct labels as [|[l|] rest]; cbn; split; try tauto;
    try (intros _; now eexists).
  intros [l H]. discriminate.
Qed.

(** The label values of an issue are built, or the poll panics. *)
Lemma issue_all_labels_outcome (r : github.Issue.t) :
  (exists ls, issue.all_labels r = Ret ls)
  \/ issue.all_labels r = Panic nil_deref.
Proof.
  unfold issue.all_labels.
  destruct (panic_facts.label_names_outcome (github.Issue.Labels r))
    as [[ns ->] | ->]; cbn [obind]; [| now right].
  destruct (panic_facts.first_label_outcome (github.Issue.Labels r))
    as [[l ->] | ->]; cbn [obind]; [| now right].
  destruct (github.Issue.Reactions r); cbn [deref obind];
    [left; now eexists | now right].
Qed.

Lemma issue_all_labels_Ret (r : github.Issue.t) :
  (exists ls, issue.all_labels r = Ret ls) <->
  labels_named (github.Issue.Labels r) /\
  first_present (github.Issue.Labels r) /\
  is_Some (github.Issue.Reactions r).
Proof.
  rewrite <- label_names_Ret, <- first_label_Ret.
  unfold issue.all_labels. split.
  - intros [ls H].
    destruct (label_names (github.Issue.Labels r)) as [ns| |];
      cbn [obind] in H; try discriminate.
    destruct (first_label (github.Issue.Labels r)) as [l| |];
      cbn [obind] in H; try discriminate.
    destruct (github.Issue.Reactions r) as [re|];
      cbn [obind deref] in H; try discriminate.
    split; [now eexists |]. split; now eexists.
  - intros [[ns ->] [[l ->] [re ->]]]. cbn. now eexists.
Qed.

(** One round of the loop over the issues. *)
Lemma collect_record_emits (client : github.Client) (cfg : config.Target)
    (i : nat) (record : option github.Issue.t) :
  issue_ok record ->
  emits (issue.collect_record (issue.make client cfg) i record)
    (issue_samples_from (issue.make client cfg) i [record]).
Proof.
  destruct record as [r|]; cbn [issue_ok issue_samples_from].
  - intros [ls Hls] st. cbn [issue.collect_record]. unfold bind at 1, lift.
    rewrite Hls, app_nil_r. apply sample_facts.emit_sends.
    now destruct (label_facts.issue_all_labels client cfg r ls Hls).
  - intros _. apply emits_ret.
Qed.

Lemma issue_samples_from_cons (c : issue.IssueCollector) (i : nat)
    (record : option github.Issue.t) (rest : list (option github.Issue.t)) :
  issue_samples_from c i (record :: rest)
  = issue_samples_from c i [record] ++ issue_samples_from c (S i) rest.
Proof.
  destruct record as [r|]; cbn [issue_samples_from];
    [now rewrite app_nil_r | reflexivity].
Qed.

Lemma issue_samples_from_app (c : issue.IssueCollector)
    (before after : list (option github.Issue.t)) :
  forall i,
    issue_samples_from c i (before ++ after)
    = issue_samples_from c i before
      ++ issue_samples_from c (i + length before) after.
Proof.
  induction before as [|record before IH]; intros i.
  - cbn. now rewrite Nat.add_0_r.
  - change ((record :: before) ++ after) with (record :: before ++ after).
    rewrite issue_samples_from_cons, IH, (issue_samples_from_cons c i record before).
    cbn [length]. now rewrite <- app_assoc, Nat.add_succ_r.
Qed.


(** The loop up to an issue whose label values cannot be built. *)
Lemma collect_records_panic (client : github.Client) (cfg : config.Target)
    (before after : list (option github.Issue.t)) (r : github.Issue.t) :
  Forall issue_ok before ->
  ~ issue_ok (Some r) ->
  forall i st,
    range_from i (before ++ Some r :: after)
      (issue.collect_record (issue.make client cfg)) st
    = (Panic nil_deref,
       push_all (issue_samples_from (issue.make client cfg) i before) st).
Proof.
  intros Hbefore Hbad.
  assert (issue.all_labels r = Panic nil_deref) as Hr.
  { destruct (issue_all_labels_outcome r) as [H|H]; [now elim Hbad | exact H]. }
  induction Hbefore as [|record before Hok _ IH]; intros i st.
  - cbn [app range_from issue.collect_record issue_samples_from].
    unfold bind, lift. rewrite Hr. now rewrite push_all_nil.
  - change ((record :: before) ++ Some r :: after)
      with (record :: before ++ Some r :: after).
    cbn [range_from]. unfold bind at 1.
    rewrite (collect_record_emits client cfg i record Hok st), IH.
    now rewrite push_all_app, <- issue_samples_from_cons.
Qed.

End issue_poll_facts.

Module issue_poll.
Import issue_poll_facts.
Local Open Scope M_scope.



End issue_poll.

(** ** Targets without a star, and the samples of one repository *)

Module repo_record_facts.
Import strings strings_facts poll_facts repo_facts.
#[local] Arguments String.append !_ _ / : simpl nomatch.

(** Without a star, the pattern matches the subject that is equal to it. *)
Lemma Glob_no_star (pattern subj : string) :
  Contains pattern "*" = false ->
  glob.Glob pattern subj = Ret (String.eqb subj pattern).
Proof.
  intros Hstar. unfold glob.Glob.
  destruct (String.eqb pattern "") eqn:E0; [reflexivity |].
  destruct (String.eqb pattern glob.GLOB) eqn:E1.
  { apply String.eqb_eq in E1. subst pattern. discriminate Hstar. }
  rewrite (target_facts.Split_no_sep glob.GLOB_byte pattern Hstar).
  reflexivity.
Qed.

(** A star in the name is a star in the entry. *)
Lemma star_in_name (name owner repo : string) :
  Split name "/" = [owner; repo] ->
  Contains name "*" = false -> Contains repo "*" = false.
Proof.
  intros [-> _]%target_facts.Split_two Hname.
  destruct (Contains repo "*") eqn:E; [| reflexivity].
  apply Contains_spec in E as [a [b ->]].
  assert (Contains (owner +:+ String "/" (a +:+ "*" +:+ b)) "*" = true) as H.
  { apply Contains_spec. exists (owner +:+ String "/" a), b.
    rewrite !append_assoc. reflexivity. }
  congruence.
Qed.





End repo_record_facts.

Module repo_table_facts.
Import poll_facts repo_record_facts.


End repo_table_facts.

(** ** Records the other collectors get past *)

Module record_facts.
Import issue_poll_facts.





End record_facts.

(** * The properties of the specification *)

(** C1. The collectors dereference fields that may be absent without a
    check.  Every issue that has no reactions object makes the round of the
    issue collector panic, whatever its other fields are; and the polls
    panic on an API that delivers such an issue (either revision of the
    issue collector), a repository that has no push timestamp (repository
    collector), or a label that has no name (pull request collector). *)
Theorem C1_absent_fields_make_the_polls_panic
    (c : issue.IssueCollector) (i : nat) (r : github.Issue.t) (st : State) :
  github.Issue.Reactions r = None ->
  issue.collect_record c i (Some r) st = (Panic nil_deref, st) /\
  fst (issue.Collect (issue.make sparse empty_target) empty_state)
  = Panic nil_deref /\
  fst (issues_go.Collect (issues_go.make sparse empty_target) empty_state)
  = Panic nil_deref /\
  fst (repo.Collect (repo.make sparse empty_target) 0 empty_state)
  = Panic nil_deref /\
  fst (pull_request.Collect (pull_request.make sparse empty_target)
         empty_state)
  = Panic nil_deref.
Proof.
  intros Hr. split.
  - now apply panic_facts.issue_without_reactions_panics.
  - repeat apply conj; vm_compute; reflexivity.
Qed.

Lemma C1_witness :
  github.Issue.Reactions issue_without_reactions = None /\
  issue.collect_record (issue.make sparse empty_target) 0
    (Some issue_without_reactions) empty_state
  = (Panic nil_deref, empty_state).
Proof.
  split; [reflexivity |].
  exact (proj1 (C1_absent_fields_make_the_polls_panic
                  (issue.make sparse empty_target) 0 issue_without_reactions
                  empty_state eq_refl)).
Defined.





(** C4. The issue collector (both revisions) and the pull request collector
    do not resolve their targets: for the target ["acme/*-service"],
    whatever the API answers, the one request they make is the list call
    for the repository named ["*-service"], star included, and no search. *)
Theorem C4_issue_and_pull_request_collectors_list_the_pattern
    (ic : issue.IssueCollector) (gc : issues_go.IssueCollector)
    (pc : pull_request.PullRequestCollector) :
  strings.Contains "*-service" "*" = true /\
  requests (issues_go.collect_target gc "acme/*-service")
    [github.CallIssuesList "acme" "*-service"] /\
  requests (issue.collect_target ic "acme/*-service")
    [github.CallIssuesList "acme" "*-service"] /\
  requests (pull_request.collect_target pc "acme/*-service")
    [github.CallPullsList "acme" "*-service"].
Proof.
  split; [reflexivity |]. repeat apply conj.
  - now apply request_facts.issues_go_requests.
  - now apply request_facts.issue_requests.
  - now apply request_facts.pull_request_requests.
Qed.

(** C5. An entry that does not split on [/] into exactly two segments makes
    every collector count exactly one failure, send no sample and make no
    request for it; the round ends normally (no panic, the process is not
    terminated) and the loop goes on with the next configured target. *)
Theorem C5_malformed_entry_counted_and_skipped
    (rc : repo.RepoCollector) (ic : issue.IssueCollector)
    (gc : issues_go.IssueCollector) (pc : pull_request.PullRequestCollector)
    (fuel i : nat) (name : string) (st : State) :
  length (strings.Split name "/") <> 2%nat ->
  (exists st',
      goes_on (fun _ n => repo.collect_target rc fuel n) i name st st' /\
      one_failure_no_sample "repo" st st' /\ calls st' = calls st) /\
  (exists st',
      goes_on (fun _ n => issue.collect_target ic n) i name st st' /\
      one_failure_no_sample "repo" st st' /\ calls st' = calls st) /\
  (exists st',
      goes_on (fun _ n => issues_go.collect_target gc n) i name st st' /\
      one_failure_no_sample "repo" st st' /\ calls st' = calls st) /\
  (exists st',
      goes_on (fun _ n => pull_request.collect_target pc n) i name st st' /\
      one_failure_no_sample "repo" st st' /\ calls st' = calls st).
Proof.
  intros H. repeat split.
  - eexists. split; [apply fetch_facts.goes_on_intro,
                       (policy_facts.repo_malformed rc fuel name st H) |].
    split; [apply fetch_facts.one_failure_count | reflexivity].
  - eexists. split; [apply fetch_facts.goes_on_intro,
                       (policy_facts.issue_malformed ic name st H) |].
    split; [apply fetch_facts.one_failure_count | reflexivity].
  - eexists. split; [apply fetch_facts.goes_on_intro,
                       (policy_facts.issues_go_malformed gc name st H) |].
    split; [apply fetch_facts.one_failure_count | reflexivity].
  - eexists. split; [apply fetch_facts.goes_on_intro,
                       (policy_facts.pull_request_malformed pc name st H) |].
    split; [apply fetch_facts.one_failure_count | reflexivity].
Qed.

Lemma C5_witness :
  length (strings.Split "justaname" "/") <> 2%nat /\
  exists st',
    goes_on
      (fun _ n => issue.collect_target (issue.make unreachable malformed_config) n)
      0 "justaname" empty_state st' /\
    one_failure_no_sample "repo" empty_state st' /\
    calls st' = calls empty_state.
Proof.
  assert (length (strings.Split "justaname" "/") <> 2%nat) as H
    by (vm_compute; lia).
  split; [exact H |].
  exact (proj1 (proj2
    (C5_malformed_entry_counted_and_skipped
       (repo.make unreachable malformed_config)
       (issue.make unreachable malformed_config)
       (issues_go.make unreachable malformed_config)
       (pull_request.make unreachable malformed_config)
       0 0 "justaname" empty_state H))).
Defined.



(** C7. The three collectors count their failures under one and the same
    label value, ["repo"]: after the constructors there is the single
    counter ["repo"], and a malformed entry polled by the repository, the
    issue or the pull request collector leaves the same counter vector,
    in which ["repo"] is 1 and there is no other counter. *)
Theorem C7_all_collectors_count_under_the_label_repo
    (client : github.Client) :
  let st0 := constructed client malformed_config in
  failures st0 = {["repo" := 0%nat]} /\
  failures (snd (repo.Collect (repo.make client malformed_config) 0 st0))
  = {["repo" := 1%nat]} /\
  failures (snd (issue.Collect (issue.make client malformed_config) st0))
  = {["repo" := 1%nat]} /\
  failures (snd (issues_go.Collect (issues_go.make client malformed_config)
                   st0))
  = {["repo" := 1%nat]} /\
  failures (snd (pull_request.Collect
                   (pull_request.make client malformed_config) st0))
  = {["repo" := 1%nat]}.
Proof.
  assert (failures (constructed client malformed_config)
          = {["repo" := 0%nat]}) as H0.
  { unfold constructed. cbn. rewrite lookup_empty. cbn.
    rewrite lookup_insert_eq. cbn. rewrite lookup_insert_eq. cbn.
    now rewrite !insert_insert_eq, insert_empty. }
  cbv zeta. generalize dependent (constructed client malformed_config).
  intros st0 H0. split; [exact H0 |].
  repeat apply conj; cbn; rewrite H0, lookup_singleton_eq; cbn;
    now rewrite insert_singleton_eq.
Qed.

(** C8. For a target [owner/name] whose name has no star, the resolver
    makes exactly one request, the direct fetch of that repository (and no
    search), whatever the fuel; what it returns is the fetched repository
    as a list of exactly one object, or the error of the fetch. *)
Theorem C8_direct_fetch_resolves_one_repository
    (client : github.Client) (fuel : nat) (name owner repo : string)
    (st : State) :
  strings.Split name "/" = [owner; repo] ->
  strings.Contains repo "*" = false ->
  exists res,
    reposByOwnerAndName client fuel owner repo st
    = (Ret res, add_calls [github.CallGet owner repo] st) /\
    (forall r, github.Repositories_Get client owner repo = GoOk r ->
               res = GoOk [Some r]) /\
    (forall err, github.Repositories_Get client owner repo = GoErr err ->
                 res = GoErr err) /\
    (forall rs, res = GoOk rs -> length rs = 1%nat).
Proof.
  intros _ Hstar. eexists. split.
  - apply resolver_facts.reposByOwnerAndName_direct, Hstar.
  - destruct (github.Repositories_Get client owner repo) as [r0|err0].
    + repeat split.
      * now intros r [= ->].
      * discriminate.
      * now intros rs [= <-].
    + repeat split.
      * discriminate.
      * now intros err [= ->].
      * discriminate.
Qed.

Lemma C8_witness :
  strings.Split "acme/web" "/" = ["acme"; "web"] /\
  strings.Contains "web" "*" = false /\
  reposByOwnerAndName acme 0 "acme" "web" empty_state
  = (Ret (GoOk [Some (acme_repo "web")]),
     add_calls [github.CallGet "acme" "web"] empty_state).
Proof.
  split; [reflexivity |]. split; [reflexivity |].
  destruct (C8_direct_fetch_resolves_one_repository
              acme 0 "acme/web" "acme" "web" empty_state eq_refl eq_refl)
    as [res [Hres [Hok _]]].
  rewrite Hres. now rewrite (Hok (acme_repo "web") eq_refl).
Defined.

(** C9. The paginated search ends: when the API's responses lead, round
    after round, to one without a next page (a run [cs] that ends well),
    then with fuel for these rounds the resolver returns, having made
    exactly the requests [cs], one per round; it returns the pages of all
    rounds in order; every response before the last one named a next page
    and the last one named none, so the loop stopped exactly there. *)
Theorem C9_search_pagination_terminates
    (client : github.Client) (fuel : nat) (owner repo : string)
    (cs : list github.Call) (all : list (option github.Repository.t))
    (st : State) :
  strings.Contains repo "*" = true ->
  search_run client owner first_page cs (GoOk all) ->
  (length cs <= fuel)%nat ->
  reposByOwnerAndName client fuel owner repo st
  = (Ret (GoOk all), add_calls cs st) /\
  all = concat (map (answered_repos client) cs) /\
  exists front final,
    cs = front ++ [final] /\
    Forall (fun c => exists n, answered_next client c = Some n /\ n <> 0)
      front /\
    answered_next client final = Some 0.
Proof.
  intros Hstar Hrun Hfuel. split; [| split].
  - now apply resolver_facts.reposByOwnerAndName_search.
  - now apply (pagination_facts.search_run_pages _ _ _ _ _ Hrun).
  - destruct (resolver_facts.search_run_rounds _ _ _ _ _ Hrun)
      as [front [final [Hcs [Hfront [Hok _]]]]].
    exists front, final. split; [exact Hcs |]. split; [exact Hfront |].
    now apply (Hok all).
Qed.

Lemma C9_witness :
  strings.Contains "*-service" "*" = true /\
  search_run acme "acme" first_page acme_calls (GoOk acme_repos) /\
  (length acme_calls <= 2)%nat /\
  reposByOwnerAndName acme 2 "acme" "*-service" empty_state
  = (Ret (GoOk acme_repos), add_calls acme_calls empty_state).
Proof.
  split; [reflexivity |]. split; [exact pagination_facts.acme_run |].
  split; [simpl; lia |].
  apply (C9_search_pagination_terminates acme 2 "acme" "*-service"
           acme_calls acme_repos empty_state eq_refl
           pagination_facts.acme_run).
  simpl; lia.
Defined.

(** C10. Whatever a pull request's assignees and requested reviewers are,
    the label values built for its [github_pull_requests_all] sample carry
    the empty string under ["assignees"] and under ["requested_reviewers"];
    and every sample a poll of the pull request collector sends, however
    the poll ends, has these two labels empty. *)
Theorem C10_pull_request_user_lists_always_empty
    (client : github.Client) (cfg : config.Target) :
  (forall r ls,
     pull_request.all_labels r = Ret ls ->
     let names :=
       prometheus.variableLabels
         (pull_request.All (pull_request.make client cfg)) in
     prometheus.lookup_label names ls "assignees" = Some "" /\
     prometheus.lookup_label names ls "requested_reviewers" = Some "") /\
  only_sends no_user_lists
    (pull_request.Collect (pull_request.make client cfg)).
Proof.
  split.
  - intros r ls Hls names.
    destruct (label_facts.pull_request_all_labels client cfg r ls Hls)
      as [_ [_ H]]. exact H.
  - apply sample_facts.pull_request_Collect_no_user_lists.
Qed.

Lemma C10_witness :
  github.PullRequest.Assignees reviewed_pull_request = [Some alice; Some bob] /\
  github.PullRequest.RequestedReviewers reviewed_pull_request = [Some bob] /\
  exists ls,
    pull_request.all_labels reviewed_pull_request = Ret ls /\
    prometheus.lookup_label
      (prometheus.variableLabels
         (pull_request.All (pull_request.make unreachable two_targets)))
      ls "assignees" = Some "" /\
    prometheus.lookup_label
      (prometheus.variableLabels
         (pull_request.All (pull_request.make unreachable two_targets)))
      ls "requested_reviewers" = Some "".
Proof.
  split; [reflexivity |]. split; [reflexivity |].
  eexists. split; [reflexivity |].
  exact (proj1 (C10_pull_request_user_lists_always_empty
                  unreachable two_targets)
           reviewed_pull_request _ eq_refl).
Defined.

(** * Further properties of the code *)

(** X1. An entry of the configuration passes the test [len(n) != 2] of
    the collectors exactly when it has one slash; the owner and the name
    are then the text before and after the slash, and either may be empty.
    For such an entry the issue collector lists the issues of that owner
    and name. *)
Theorem X1_entry_accepted_iff_one_slash (name owner repo : string) :
  (strings.Split name "/" = [owner; repo] <->
   name = owner +:+ "/" +:+ repo /\
   strings.Contains owner "/" = false /\
   strings.Contains repo "/" = false) /\
  (length (strings.Split name "/") = 2%nat <->
   exists o r,
     name = o +:+ "/" +:+ r /\
     strings.Contains o "/" = false /\ strings.Contains r "/" = false) /\
  (forall c : issue.IssueCollector,
     strings.Contains owner "/" = false ->
     strings.Contains repo "/" = false ->
     requests (issue.collect_target c (owner +:+ "/" +:+ repo))
       [github.CallIssuesList owner repo]).
Proof.
  split; [apply target_facts.Split_two |]. split.
  - split.
    + intros Hlen.
      destruct (strings.Split name "/") as [|o [|r [|]]] eqn:E;
        try discriminate.
      exists o, r. now apply target_facts.Split_two.
    + intros [o [r H]]. apply target_facts.Split_two in H. now rewrite H.
  - intros c Ho Hr. apply request_facts.issue_requests.
    now apply target_facts.Split_two.
Qed.

Lemma X1_witness :
  strings.Contains "acme" "/" = false /\
  strings.Contains "" "/" = false /\
  requests
    (issue.collect_target (issue.make unreachable two_targets)
       ("acme" +:+ "/" +:+ ""))
    [github.CallIssuesList "acme" ""].
Proof.
  split; [reflexivity |]. split; [reflexivity |].
  exact (proj2 (proj2 (X1_entry_accepted_iff_one_slash "acme/" "acme" ""))
           (issue.make unreachable two_targets) eq_refl eq_refl).
Defined.

(** X2. The label value of a number or of a boolean tells what the field
    was: [string_int_or_empty], [string_int64_or_empty] and
    [string_bool_or_empty] give different strings for different fields, and
    the empty string only for an absent one.  The hand-written [locked]
    label of the issue collector is [string_bool_or_empty].  A text label
    cannot tell an absent field from an empty text. *)
Theorem X2_number_and_boolean_labels_are_injective :
  (forall p q, string_int_or_empty p = string_int_or_empty q -> p = q) /\
  (forall p q, string_int64_or_empty p = string_int64_or_empty q -> p = q) /\
  (forall p q, string_bool_or_empty p = string_bool_or_empty q -> p = q) /\
  (forall p, string_int_or_empty p = "" <-> p = None) /\
  (forall p, issue.locked_label p = string_bool_or_empty p) /\
  (forall p, string_or_empty p = "" <-> p = None \/ p = Some "").
Proof.
  repeat apply conj.
  - exact render_facts.string_int_or_empty_inj.
  - exact render_facts.string_int_or_empty_inj.
  - intros [[|]|] [[|]|]; simpl; congruence.
  - intros [n|]; simpl; split; try congruence.
    intros H. now apply render_facts.Sprint_nonempty in H.
  - now intros [[|]|].
  - intros [s|]; simpl; split; try tauto.
    + intros ->. now right.
    + intros [H|H]; congruence.
Qed.

Lemma X2_witness :
  string_int_or_empty (Some 0) = string_int_or_empty (Some 0) /\
  Some 0 = Some 0 :> option Z.
Proof.
  split; [reflexivity |].
  exact (proj1 X2_number_and_boolean_labels_are_injective
           (Some 0) (Some 0) eq_refl).
Defined.


(** X4. Whatever the API answers and however the resolver ends, it sends
    no sample, counts no failure, writes no log line and observes no
    duration; and every request it makes is the direct fetch of the owner
    and name it was given, or a search with the query [user:<owner>] and
    fifty results to a page. *)
Theorem X4_resolver_only_makes_its_requests
    (client : github.Client) (fuel : nat) (owner repo : string) :
  only_requests (resolver_request owner repo)
    (reposByOwnerAndName client fuel owner repo).
Proof. apply resolver_frame.reposByOwnerAndName_only_requests. Qed.




(** X7. An issue gets past the issue collector (src/unnamed/part_001),
    that is, its label values are built and it gets its sample, exactly
    when it has a reactions object, every label that is not nil has a name
    and the first entry of its labels is not nil; on any other issue the
    round panics with a nil dereference, having sent nothing. *)
Theorem X7_issues_that_get_a_sample
    (client : github.Client) (cfg : config.Target) (i : nat)
    (r : github.Issue.t) (st : State) :
  (issue_ok (Some r) <->
   labels_named (github.Issue.Labels r) /\
   first_present (github.Issue.Labels r) /\
   is_Some (github.Issue.Reactions r)) /\
  (issue_ok (Some r) ->
   exists ls,
     issue.all_labels r = Ret ls /\
     issue.collect_record (issue.make client cfg) i (Some r) st
     = (Ret tt,
        push_all [{| prometheus.desc := issue.All (issue.make client cfg);
                     prometheus.value := Z.of_nat i;
                     prometheus.labelValues := ls |}] st)) /\
  (~ issue_ok (Some r) ->
   issue.collect_record (issue.make client cfg) i (Some r) st
   = (Panic nil_deref, st)).
Proof.
  split; [apply issue_poll_facts.issue_all_labels_Ret |]. split.
  - intros [ls Hls]. exists ls. split; [exact Hls |].
    cbn [issue.collect_record]. unfold bind at 1, lift. rewrite Hls.
    apply sample_facts.emit_sends.
    now destruct (label_facts.issue_all_labels client cfg r ls Hls).
  - intros Hbad.
    pose proof (issue_poll_facts.collect_records_panic client cfg [] [] r
                  (List.Forall_nil _) Hbad i st) as H.
    cbn [app range_from issue_samples_from] in H.
    rewrite poll_facts.push_all_nil in H. unfold bind in H.
    destruct (issue.collect_record (issue.make client cfg) i (Some r) st)
      as [[[]|msg|] st1]; [discriminate | exact H | exact H].
Qed.

Lemma X7_witness :
  issue_ok (Some bare_issue) /\
  ~ issue_ok (Some issue_without_reactions) /\
  issue.collect_record (issue.make unreachable two_targets) 3
    (Some issue_without_reactions) empty_state
  = (Panic nil_deref, empty_state).
Proof.
  assert (issue_ok (Some bare_issue)) as Hok by (eexists; reflexivity).
  assert (~ issue_ok (Some issue_without_reactions)) as Hbad.
  { intros [ls H]. discriminate H. }
  split; [exact Hok |]. split; [exact Hbad |].
  exact (proj2 (proj2 (X7_issues_that_get_a_sample unreachable two_targets 3
                         issue_without_reactions empty_state)) Hbad).
Defined.



(** X9. An issue that does not get past the collector ends the whole
    poll in a panic: the samples of the issues listed before it have been
    sent, the issues after it get none, no failure is counted, and the
    entries that follow in the configuration are never requested. *)
Theorem X9_a_panic_ends_the_poll
    (client : github.Client) (cfg : config.Target) (i : nat)
    (name owner repo : string) (rest : list string)
    (before after : list (option github.Issue.t)) (r : github.Issue.t)
    (st : State) :
  strings.Split name "/" = [owner; repo] ->
  github.Issues_ListByRepo client owner repo
  = GoOk (before ++ Some r :: after) ->
  Forall issue_ok before ->
  ~ issue_ok (Some r) ->
  range_from i (name :: rest)
    (fun _ n => issue.collect_target (issue.make client cfg) n) st
  = (Panic nil_deref,
     push_all (issue_samples_from (issue.make client cfg) 0 before)
       (add_calls [github.CallIssuesList owner repo] st)).
Proof.
  intros Hsplit Hlist Hbefore Hbad. cbn [range_from]. unfold bind at 1.
  unfold issue.collect_target. rewrite Hsplit.
  cbn [issue.client issue.make]. unfold bind at 1, call. rewrite Hlist.
  unfold range.
  now rewrite (issue_poll_facts.collect_records_panic client cfg before after
                 r Hbefore Hbad).
Qed.

Lemma X9_witness :
  strings.Split "acme/empty" "/" = ["acme"; "empty"] /\
  github.Issues_ListByRepo sparse "acme" "empty"
  = GoOk ([] ++ Some issue_without_reactions :: []) /\
  Forall issue_ok [] /\
  ~ issue_ok (Some issue_without_reactions) /\
  range_from 0 ["acme/empty"; "acme/web"]
    (fun _ n => issue.collect_target (issue.make sparse two_targets) n)
    empty_state
  = (Panic nil_deref,
     push_all []
       (add_calls [github.CallIssuesList "acme" "empty"] empty_state)).
Proof.
  assert (~ issue_ok (Some issue_without_reactions)) as Hbad.
  { intros [ls H]. discriminate H. }
  split; [reflexivity |]. split; [reflexivity |].
  split; [constructor |]. split; [exact Hbad |].
  exact (X9_a_panic_ends_the_poll sparse two_targets 0 "acme/empty" "acme"
           "empty" ["acme/web"] [] [] issue_without_reactions empty_state
           eq_refl eq_refl (List.Forall_nil _) Hbad).
Defined.

(** X10. An entry without a star is fetched directly and then compared with
    the full name the API returns, byte for byte: when they differ (another
    letter case, a renamed repository), the repository collector sends no
    sample for the entry, and it counts no failure and writes no log line
    either; the request and the observed duration are all that is left. *)
Theorem X10_other_full_name_is_passed_over_silently
    (client : github.Client) (cfg : config.Target) (fuel : nat)
    (name owner repo f : string) (r : github.Repository.t) (st : State) :
  strings.Split name "/" = [owner; repo] ->
  strings.Contains name "*" = false ->
  github.Repositories_Get client owner repo = GoOk r ->
  github.Repository.FullName r = Some f ->
  f <> name ->
  repo.collect_target (repo.make client cfg) fuel name st
  = (Ret tt, observed "repo" (add_calls [github.CallGet owner repo] st)).
Proof.
  intros Hsplit Hstar Hget Hf Hne.
  rewrite (fetch_facts.repo_resolved (repo.make client cfg) fuel name owner
             repo [github.CallGet owner repo] (GoOk [Some r]) st Hsplit).
  - unfold range. cbn [range_from]. unfold bind at 1.
    unfold repo.collect_record. cbn [deref]. unfold bind at 1, lift.
    rewrite Hf. cbn [deref]. unfold bind at 1.
    rewrite (repo_record_facts.Glob_no_star name f Hstar).
    apply String.eqb_neq in Hne. rewrite Hne. reflexivity.
  - cbn [repo.client repo.make].
    rewrite resolver_facts.reposByOwnerAndName_direct
      by (now apply (repo_record_facts.star_in_name name owner repo)).
    now rewrite Hget.
Qed.

Lemma X10_witness :
  strings.Split "acme/Web" "/" = ["acme"; "Web"] /\
  strings.Contains "acme/Web" "*" = false /\
  github.Repositories_Get sparse "acme" "Web" = GoOk repo_never_pushed /\
  github.Repository.FullName repo_never_pushed = Some "acme/empty" /\
  repo.collect_target (repo.make sparse two_targets) 0 "acme/Web" empty_state
  = (Ret tt,
     observed "repo" (add_calls [github.CallGet "acme" "Web"] empty_state)).
Proof.
  assert ("acme/empty" <> "acme/Web") as Hne by discriminate.
  split; [reflexivity |]. split; [reflexivity |]. split; [reflexivity |].
  split; [reflexivity |].
  exact (X10_other_full_name_is_passed_over_silently sparse two_targets 0
           "acme/Web" "acme" "Web" "acme/empty" repo_never_pushed empty_state
           eq_refl eq_refl eq_refl eq_refl Hne).
Defined.



(** X12. [glob.Glob], as the repository collector calls it on an entry and
    a full name, never panics, and it answers true exactly when the pattern
    matches the whole subject with every star standing for some run of
    bytes and every other byte for itself; without a star it is the test
    for equality. *)
Theorem X12_Glob_decides_glob_matching (pattern subj : string) :
  (exists b,
      glob.Glob pattern subj = Ret b /\
      (b = true <-> glob_match pattern subj)) /\
  (strings.Contains pattern "*" = false ->
   glob.Glob pattern subj = Ret (String.eqb subj pattern)).
Proof.
  split; [apply glob_facts.Glob_decides |].
  apply repo_record_facts.Glob_no_star.
Qed.

Lemma X12_witness :
  strings.Contains "acme/web" "*" = false /\
  glob.Glob "acme/web" "acme/Web" = Ret false.
Proof.
  split; [reflexivity |].
  exact (proj2 (X12_Glob_decides_glob_matching "acme/web" "acme/Web")
           eq_refl).
Defined.


